(** * GMLAN diagnostic utilities: a shallow embedding of
      [scapy/contrib/automotive/gm/gmlanutil.py]

    The module drives an ECU through a request/response transport.  The
    embedding threads an explicit [World] through every transport call: the
    world holds the answers the ECU is going to give (one entry per blocking
    receive, [None] for a timeout) and the chronological trace of everything
    the tool did on the transport.  Python integers are [Z], [bytes] are
    [list byte], [None]-able values are [option].

    The [verbose] argument only selects what is printed and is left out.
    [TesterPresentThread], the keep-alive thread that runs beside these
    calls, is not part of the development. *)

From Stdlib Require Import ZArith List Bool Lia Finite.
From Stdlib.Strings Require Import Byte.
Import ListNotations.
Open Scope Z_scope.

(** ** Messages *)

(** Requests built by the module; one constructor per layer stacked on
    [GMLAN()].  [GMLAN_raw s] is [GMLAN(bytes([s]))], a bare service byte. *)
Inductive Packet : Type :=
| GMLAN_raw (service : Z)
| GMLAN_PM (subfunction : Z)
| GMLAN_SA (subfunction : Z) (securityKey : option Z)
| GMLAN_RD (memorySize : Z)
| GMLAN_TD (startingAddress : Z) (dataRecord : list byte)
| GMLAN_RMBA (memoryAddress : Z) (memorySize : Z).

(** The attributes the module reads on a response.  [dataRecord] is [None]
    on a response that carries no data bytes. *)
Record Response : Type := mkResponse {
  service : Z;
  returnCode : Z;
  requestServiceId : Z;
  securitySeed : Z;
  dataRecord : option (list byte)
}.

(** ** Transport *)

Inductive WarningKind : Type :=
| OddLevelExpected
| InvalidAddress (addr scheme : Z)
| InvalidLength (length scheme : Z).

(** What the tool does on the outside, one event per call:
    [socket.sr1(p, timeout=..)], [socket.send(p)], [broadcastsocket.send(p)],
    [socket.sniff(count=1, timeout=.., lfilter=lambda q: q.answers(p))],
    [sleep(ms / 1000)] and [warning(..)]. *)
Inductive Event : Type :=
| Sr1 (p : Packet) (timeout : option Z)
| Send (p : Packet)
| Broadcast (p : Packet)
| Sniff (p : Packet) (timeout : option Z)
| Sleep (ms : Z)
| Warning (k : WarningKind).

Record World : Type := mkWorld {
  inbox : list (option Response);
  trace : list Event
}.

Definition log (e : Event) (w : World) : World :=
  {| inbox := inbox w; trace := trace w ++ [e] |}.

(** [socket.sr1]: send, then the first answer or [None] on timeout.  An
    exhausted inbox is a silent ECU. *)
Definition sr1 (p : Packet) (timeout : option Z) (w : World)
  : option Response * World :=
  match inbox w with
  | [] => (None, {| inbox := []; trace := trace w ++ [Sr1 p timeout] |})
  | r :: rest => (r, {| inbox := rest; trace := trace w ++ [Sr1 p timeout] |})
  end.

(** [socket.sniff(count=1, ..)]: a list holding at most one message. *)
Definition sniff (p : Packet) (timeout : option Z) (w : World)
  : list Response * World :=
  match inbox w with
  | [] => ([], {| inbox := []; trace := trace w ++ [Sniff p timeout] |})
  | None :: rest =>
      ([], {| inbox := rest; trace := trace w ++ [Sniff p timeout] |})
  | Some r :: rest =>
      ([r], {| inbox := rest; trace := trace w ++ [Sniff p timeout] |})
  end.

Definition send (p : Packet) (w : World) : World := log (Send p) w.
Definition broadcast_send (p : Packet) (w : World) : World :=
  log (Broadcast p) w.
Definition sleep (ms : Z) (w : World) : World := log (Sleep ms) w.
Definition warning (k : WarningKind) (w : World) : World := log (Warning k) w.

(** Handle of a broadcast socket ([GMLAN_BroadcastSocket(interface)]); its
    sends are the [Broadcast] events. *)
Inductive BroadcastSocket : Type := GMLAN_BroadcastSocket.

(** ** Control *)

(** Outcome of a call: it returned, it raised [ValueError], or the model ran
    out of fuel before the call finished. *)
Inductive Run (A : Type) : Type :=
| Done (a : A) (w : World)
| ValueError (w : World)
| OutOfFuel.
Arguments Done {A} a w.
Arguments ValueError {A} w.
Arguments OutOfFuel {A}.

(** How one pass through a loop body ends. *)
Inductive Ctl (A : Type) : Type :=
| Continue
| Break
| Return (a : A).
Arguments Continue {A}.
Arguments Break {A}.
Arguments Return {A} a.

(** [if retry < 0: retry = -retry] *)
Definition normalize_retry (retry : Z) : Z :=
  if retry <? 0 then - retry else retry.

(** ** Response pending *)

(** [resp.service == 0x7f and resp.returnCode == 0x78 and
     resp.requestServiceId == sid] *)
Definition is_pending (sid : Z) (resp : Response) : bool :=
  (service resp =? 0x7f) && (returnCode resp =? 0x78)
  && (requestServiceId resp =? sid).

(** The [while] loop that filters "response pending": as long as [resp] is a
    pending answer to service [sid], sniff for one more message answering
    [pkt]; an empty sniff makes [resp] [None] and leaves the loop.  Every
    sniff takes one entry off the inbox, which is what the recursion follows
    ([filter_pending_eq] below restates it with [sniff]).  The loop has no
    bound of its own in the source: it ends here because the answers of a
    world are finitely many, after which the ECU is silent.  An ECU that
    answers "response pending" for ever, against which the source does not
    return, is not among the worlds. *)
Fixpoint filter_pending (sid : Z) (pkt : Packet) (timeout : option Z)
    (resp : Response) (inb : list (option Response)) (tr : list Event)
    {struct inb} : option Response * World :=
  if is_pending sid resp then
    match inb with
    | [] => (None, {| inbox := []; trace := tr ++ [Sniff pkt timeout] |})
    | None :: rest =>
        (None, {| inbox := rest; trace := tr ++ [Sniff pkt timeout] |})
    | Some r :: rest =>
        filter_pending sid pkt timeout r rest (tr ++ [Sniff pkt timeout])
    end
  else (Some resp, {| inbox := inb; trace := tr |}).

(** [resp = socket.sr1(pkt, ..)] followed by the pending filter: the terminal
    answer to [pkt], or [None] for a timeout.  The source repeats these lines
    in [RequestDownload], [TransferData] and [ReadMemoryByAddress] with
    [sid] 0x34, 0x36 and 0x23. *)
Definition resolve (sid : Z) (pkt : Packet) (timeout : option Z) (w : World)
  : option Response * World :=
  let '(resp, w1) := sr1 pkt timeout w in
  match resp with
  | None => (None, w1)
  | Some r => filter_pending sid pkt timeout r (inbox w1) (trace w1)
  end.

(** The tail of the three [while True] bodies: [retry -= 1], then go round
    again if [retry >= 0], else give up with [failure]. *)
Definition consume_retry {A : Type} (failure : A) (retry : Z) (w : World)
  : Ctl A * Z * World :=
  let retry := retry - 1 in
  if retry >=? 0 then (Continue, retry, w) else (Return failure, retry, w).

(** ** RequestDownload *)

Definition RequestDownload_body (length : Z) (timeout : option Z)
    (retry : Z) (w : World) : Ctl bool * Z * World :=
  let pkt := GMLAN_RD length in
  let '(resp, w1) := resolve 0x34 pkt timeout w in
  match resp with
  | None => consume_retry false retry w1
  | Some r =>
      if negb (service r =? 0x74) then consume_retry false retry w1
      else (Break, retry, w1)
  end.

Fixpoint RequestDownload_loop (fuel : nat) (length : Z) (timeout : option Z)
    (retry : Z) (w : World) : Run bool :=
  match fuel with
  | O => OutOfFuel
  | S fuel' =>
      match RequestDownload_body length timeout retry w with
      | (Continue, retry', w') =>
          RequestDownload_loop fuel' length timeout retry' w'
      | (Break, _, w') => Done true w'
      | (Return b, _, w') => Done b w'
      end
  end.

Definition RequestDownload (w : World) (length : Z) (timeout : option Z)
    (retry : Z) : Run bool :=
  let retry := normalize_retry retry in
  RequestDownload_loop (S (Z.to_nat retry)) length timeout retry w.

(** ** InitDiagnostics *)

(** The body of [while retry >= 0] from [sleep(0.05)] after
    DisableNormalCommunication to its end; [Continue] is the source's
    [continue]. *)
Definition InitDiagnostics_programming (timeout : option Z) (w : World)
  : Ctl bool * World :=
  let w := sleep 50 w in
  (* ReportProgrammedState *)
  let p := GMLAN_raw 0xa2 in
  let '(resp, w) := sr1 p timeout w in
  match resp with
  | None => (Continue, w)
  | Some r =>
      if negb (service r =? 0xe2) then (Continue, w)
      else
        (* ProgrammingMode requestProgramming *)
        let p := GMLAN_PM 0x1 in
        let '(resp, w) := sr1 p timeout w in
        match resp with
        | None => (Continue, w)
        | Some r =>
            if negb (service r =? 0xe5) then (Continue, w)
            else
              let w := sleep 50 w in
              (* InitiateProgramming enableProgramming *)
              let p := GMLAN_PM 0x3 in
              let w := send p w in
              let w := sleep 50 w in
              (Return true, w)
        end
  end.

(** One pass through the body of [while retry >= 0], after [retry -= 1]. *)
Definition InitDiagnostics_body (broadcastsocket : option BroadcastSocket)
    (timeout : option Z) (w : World) : Ctl bool * World :=
  (* DisableNormalCommunication *)
  let p := GMLAN_raw 0x28 in
  match broadcastsocket with
  | None =>
      let '(resp, w) := sr1 p timeout w in
      match resp with
      | Some r =>
          if negb (service r =? 0x68) then (Continue, w)
          else InitDiagnostics_programming timeout w
      | None => (Continue, w)
      end
  | Some _ =>
      let w := broadcast_send p w in
      InitDiagnostics_programming timeout w
  end.

Fixpoint InitDiagnostics_loop (fuel : nat)
    (broadcastsocket : option BroadcastSocket) (timeout : option Z)
    (retry : Z) (w : World) : Run bool :=
  match fuel with
  | O => OutOfFuel
  | S fuel' =>
      if retry >=? 0 then
        let retry := retry - 1 in
        match InitDiagnostics_body broadcastsocket timeout w with
        | (Return b, w') => Done b w'
        | (_, w') => InitDiagnostics_loop fuel' broadcastsocket timeout retry w'
        end
      else Done false w
  end.

Definition InitDiagnostics (w : World)
    (broadcastsocket : option BroadcastSocket) (timeout : option Z)
    (retry : Z) : Run bool :=
  let retry := normalize_retry retry in
  InitDiagnostics_loop (S (S (Z.to_nat retry))) broadcastsocket timeout retry w.

(** ** GetSecurityAccess *)

Definition GetSecurityAccess_body (keyFunction : Z -> Z) (level : Z)
    (timeout : option Z) (w : World) : Ctl bool * World :=
  let request := GMLAN_SA level None in
  let '(resp, w1) := sr1 request timeout w in
  match resp with
  | None => (Continue, w1)
  | Some r =>
      if negb (service r =? 0x67) then (Continue, w1)
      else
        let seed := securitySeed r in
        if seed =? 0 then (Return true, w1)
        else
          let keypkt := GMLAN_SA (level + 1) (Some (keyFunction seed)) in
          let '(resp, w2) := sr1 keypkt timeout w1 in
          match resp with
          | Some r =>
              if service r =? 0x67 then (Return true, w2)
              else if (service r =? 0x7F) && (returnCode r =? 0x35)
                   then (Continue, w2)
                   else (Continue, w2)   (* falls off the end of the body *)
          | None => (Continue, w2)
          end
  end.

Fixpoint GetSecurityAccess_loop (fuel : nat) (keyFunction : Z -> Z)
    (level : Z) (timeout : option Z) (retry : Z) (w : World) : Run bool :=
  match fuel with
  | O => OutOfFuel
  | S fuel' =>
      if retry >=? 0 then
        let retry := retry - 1 in
        match GetSecurityAccess_body keyFunction level timeout w with
        | (Return b, w') => Done b w'
        | (_, w') =>
            GetSecurityAccess_loop fuel' keyFunction level timeout retry w'
        end
      else Done false w
  end.

Definition GetSecurityAccess (w : World) (keyFunction : Z -> Z) (level : Z)
    (timeout : option Z) (retry : Z) : Run bool :=
  let retry := normalize_retry retry in
  if level mod 2 =? 0 then Done false (warning OddLevelExpected w)
  else
    GetSecurityAccess_loop (S (S (Z.to_nat retry))) keyFunction level timeout
      retry w.

(** ** Python sequences *)

(** [range(start, stop, step)]; [None] is the [ValueError] of a zero step. *)
Definition py_range (start stop step : Z) : option (list Z) :=
  if step =? 0 then None
  else
    let n :=
      if 0 <? step
      then (if start <? stop then (stop - start - 1) / step + 1 else 0)
      else (if stop <? start then (start - stop - 1) / (- step) + 1 else 0) in
    Some (map (fun k => start + Z.of_nat k * step) (seq 0 (Z.to_nat n))).

(** A slice bound brought into [0, n], counting from the end when negative. *)
Definition py_clip (n k : Z) : Z :=
  if k <? 0 then Z.max (k + n) 0 else Z.min k n.

(** [l[lo:hi]], and [l[lo:]] when [hi] is [None]. *)
Definition py_slice {A : Type} (l : list A) (lo : Z) (hi : option Z) : list A :=
  let n := Z.of_nat (length l) in
  let a := py_clip n lo in
  let b := match hi with None => n | Some h => py_clip n h end in
  firstn (Z.to_nat (b - a)) (skipn (Z.to_nat a) l).

Definition len {A : Type} (l : list A) : Z := Z.of_nat (length l).

(** ** TransferData *)

(** [scheme] is [conf.contribs['GMLAN']['GMLAN_ECU_AddressingScheme']], the
    byte width of an ECU address; it is set outside this module and taken as
    a parameter.  [2**(8 * scheme)] is [Z.pow], which is Python's power for
    the non-negative widths the configuration holds. *)
Definition invalid_address (scheme addr : Z) : bool :=
  (addr <? 0) || (addr >=? 2 ^ (8 * scheme)).

(** The bytes of the chunk at offset [i]:
    [payload[i:i + maxmsglen]] if [len(payload[i:]) > maxmsglen], else
    [payload[i:]]. *)
Definition transdata_at (payload : list byte) (maxmsglen i : Z) : list byte :=
  if len (py_slice payload i None) >? maxmsglen
  then py_slice payload i (Some (i + maxmsglen))
  else py_slice payload i None.

Definition TransferData_body (addr : Z) (payload : list byte) (maxmsglen : Z)
    (timeout : option Z) (i : Z) (retry : Z) (w : World)
    : Ctl bool * Z * World :=
  let transdata := transdata_at payload maxmsglen i in
  let pkt := GMLAN_TD (addr + i) transdata in
  let '(resp, w1) := resolve 0x36 pkt timeout w in
  match resp with
  | None => consume_retry false retry w1
  | Some r =>
      if negb (service r =? 0x76) then consume_retry false retry w1
      else (Break, retry, w1)
  end.

(** The [while True] of one chunk: [Done true] when it is left by [break],
    [Done false] when the function returns [False] from inside it. *)
Fixpoint TransferData_while (fuel : nat) (addr : Z) (payload : list byte)
    (maxmsglen : Z) (timeout : option Z) (i : Z) (retry : Z) (w : World)
    : Run bool :=
  match fuel with
  | O => OutOfFuel
  | S fuel' =>
      match TransferData_body addr payload maxmsglen timeout i retry w with
      | (Continue, retry', w') =>
          TransferData_while fuel' addr payload maxmsglen timeout i retry' w'
      | (Break, _, w') => Done true w'
      | (Return b, _, w') => Done b w'
      end
  end.

(** [for i in range(0, len(payload), maxmsglen)] over the offsets left. *)
Fixpoint TransferData_for (offsets : list Z) (addr : Z) (payload : list byte)
    (maxmsglen : Z) (timeout : option Z) (startretry : Z) (w : World)
    : Run bool :=
  match offsets with
  | [] => Done true w
  | i :: offsets' =>
      let retry := startretry in
      match TransferData_while (S (Z.to_nat retry)) addr payload maxmsglen
              timeout i retry w with
      | Done true w' =>
          TransferData_for offsets' addr payload maxmsglen timeout startretry w'
      | stopped => stopped
      end
  end.

(** The chunk size in force after the clamp to [4093 - scheme]. *)
Definition effective_maxmsglen (scheme : Z) (maxmsglen : option Z) : Z :=
  match maxmsglen with
  | None => 4093 - scheme
  | Some m => if (m <=? 0) || (m >? 4093 - scheme) then 4093 - scheme else m
  end.

Definition TransferData (scheme : Z) (w : World) (addr : Z)
    (payload : list byte) (maxmsglen : option Z) (timeout : option Z)
    (retry : Z) : Run bool :=
  let retry := normalize_retry retry in
  let startretry := retry in
  if invalid_address scheme addr
  then Done false (warning (InvalidAddress addr scheme) w)
  else
    let maxmsglen := effective_maxmsglen scheme maxmsglen in
    match py_range 0 (len payload) maxmsglen with
    | None => ValueError w
    | Some offsets =>
        TransferData_for offsets addr payload maxmsglen timeout startretry w
    end.

(** ** TransferPayload *)

Definition TransferPayload (scheme : Z) (w : World) (addr : Z)
    (payload : list byte) (maxmsglen : option Z) (timeout : option Z)
    (retry : Z) : Run bool :=
  match RequestDownload w (len payload) timeout retry with
  | Done true w1 =>
      match TransferData scheme w1 addr payload maxmsglen timeout retry with
      | Done true w2 => Done true w2
      | stopped => stopped
      end
  | stopped => stopped
  end.

(** ** ReadMemoryByAddress *)

(** [return resp.dataRecord] hands the attribute back as it is: the result
    is [None] after a failure and also after a response with service code
    0x63 that carries no data. *)
Definition ReadMemoryByAddress_body (addr length : Z) (timeout : option Z)
    (retry : Z) (w : World) : Ctl (option (list byte)) * Z * World :=
  let pkt := GMLAN_RMBA addr length in
  let '(resp, w1) := resolve 0x23 pkt timeout w in
  match resp with
  | None => consume_retry None retry w1
  | Some r =>
      if negb (service r =? 0x63) then consume_retry None retry w1
      else (Return (dataRecord r), retry, w1)
  end.

Fixpoint ReadMemoryByAddress_loop (fuel : nat) (addr length : Z)
    (timeout : option Z) (retry : Z) (w : World)
    : Run (option (list byte)) :=
  match fuel with
  | O => OutOfFuel
  | S fuel' =>
      match ReadMemoryByAddress_body addr length timeout retry w with
      | (Return res, _, w') => Done res w'
      | (_, retry', w') =>
          ReadMemoryByAddress_loop fuel' addr length timeout retry' w'
      end
  end.

Definition ReadMemoryByAddress (scheme : Z) (w : World) (addr length : Z)
    (timeout : option Z) (retry : Z) : Run (option (list byte)) :=
  let retry := normalize_retry retry in
  if invalid_address scheme addr
  then Done None (warning (InvalidAddress addr scheme) w)
  else if (length <=? 0) || (length >? 4094 - scheme)
  then Done None (warning (InvalidLength length scheme) w)
  else
    ReadMemoryByAddress_loop (S (Z.to_nat retry)) addr length timeout retry w.

(** ** Reading a trace *)

(** Messages put on a transport: [sr1] and the two [send]s. *)
Definition is_sent (e : Event) : bool :=
  match e with
  | Sr1 _ _ | Send _ | Broadcast _ => true
  | _ => false
  end.

Definition count (f : Event -> bool) (tr : list Event) : nat :=
  length (filter f tr).

Definition messages_sent (tr : list Event) : nat := count is_sent tr.

(** An attempt of [InitDiagnostics] opens with DisableNormalCommunication,
    on either socket. *)
Definition is_disable_normal_communication (e : Event) : bool :=
  match e with
  | Sr1 (GMLAN_raw s) _ | Broadcast (GMLAN_raw s) => s =? 0x28
  | _ => false
  end.

(** An attempt of [GetSecurityAccess] opens with a seed request. *)
Definition is_seed_request (e : Event) : bool :=
  match e with
  | Sr1 (GMLAN_SA _ None) _ => true
  | _ => false
  end.

(** A data-transfer request whose [startingAddress] is [a]. *)
Definition is_chunk_at (a : Z) (e : Event) : bool :=
  match e with
  | Sr1 (GMLAN_TD a' _) _ => a' =? a
  | _ => false
  end.

(** The data-transfer requests of a trace, in order: address and bytes. *)
Fixpoint chunks_sent (tr : list Event) : list (Z * list byte) :=
  match tr with
  | [] => []
  | Sr1 (GMLAN_TD a d) _ :: tr' => (a, d) :: chunks_sent tr'
  | _ :: tr' => chunks_sent tr'
  end.

(** What is left of a finished call; [None] only for a model out of fuel. *)
Definition final_world {A : Type} (r : Run A) : option World :=
  match r with
  | Done _ w => Some w
  | ValueError w => Some w
  | OutOfFuel => None
  end.

(** * Vocabulary of the properties *)

(** ** Retry counter and response pending *)

Section PendingDiscipline.
Variable A : Type.
(** The request's service identifier and its positive response code. *)
Variables sid ok : Z.
Variable pkt : Packet.
Variable timeout : option Z.
(** One pass through a retry loop, from the counter and the world to the
    way the pass ends, the counter after it and the world after it. *)
Variable body : Z -> World -> Ctl A * Z * World.
Variable on_success : Response -> Ctl A.
Variable failure : A.

(** Whatever number of pending answers precede the terminal one, a pass
    keeps the counter on a positive terminal answer and takes exactly one
    off it on a timeout or on any other terminal answer. *)
Definition absorbs_pending : Prop :=
  forall (ps : list Response) (x : option Response)
         (rest : list (option Response)) (tr : list Event) (retry : Z),
    Forall (fun r => is_pending sid r = true) ps ->
    let w := {| inbox := map Some ps ++ x :: rest; trace := tr |} in
    let w' := {| inbox := rest;
                 trace := tr ++ Sr1 pkt timeout
                             :: repeat (Sniff pkt timeout) (length ps) |} in
    let failed :=
      (if retry - 1 >=? 0 then Continue else Return failure, retry - 1, w') in
    match x with
    | Some r =>
        is_pending sid r = false ->
        body retry w = if service r =? ok then (on_success r, retry, w')
                       else failed
    | None => body retry w = failed
    end.

(** A pass that changes the counter takes one off it, and had a timeout or
    a non-matching answer as its terminal answer. *)
Definition decrements_only_on_failure : Prop :=
  forall (retry : Z) (w : World),
    let retry' := snd (fst (body retry w)) in
    retry' = retry
    \/ (retry' = retry - 1
        /\ match fst (resolve sid pkt timeout w) with
           | None => True
           | Some r => service r <> ok /\ is_pending sid r = false
           end).
End PendingDiscipline.
Arguments absorbs_pending {A} sid ok pkt timeout body on_success failure.
Arguments decrements_only_on_failure {A} sid ok pkt timeout body.

(** Traces that one resolved request can add: the request, then sniffs. *)
Definition only_request (pkt : Packet) (t : option Z) (delta : list Event)
  : Prop :=
  Forall (fun e => e = Sr1 pkt t \/ e = Sniff pkt t) delta.

(** What a key step that did not succeed leads to, from the world [w2] it
    leaves: with the budget used up the call returns [False] there;
    otherwise the call goes on as a call on [w2] with one retry less, which
    opens with a new seed request. *)
Definition key_step_retried (w w2 : World) (keyFunction : Z -> Z)
    (level : Z) (t : option Z) (retry : Z) : Prop :=
  if Z.abs retry =? 0
  then GetSecurityAccess w keyFunction level t retry = Done false w2
  else
    GetSecurityAccess w keyFunction level t retry
    = GetSecurityAccess w2 keyFunction level t (Z.abs retry - 1)
    /\ exists b inb' delta,
        GetSecurityAccess w keyFunction level t retry
        = Done b {| inbox := inb';
                    trace := trace w2 ++ Sr1 (GMLAN_SA level None) t
                               :: delta |}.

(** ** Sample answers *)

(** A positive response with service code [s]. *)
Definition positive (s : Z) : Response :=
  {| service := s; returnCode := 0; requestServiceId := 0;
     securitySeed := 0; dataRecord := None |}.

(** A negative response to service [sid] with return code [rc]. *)
Definition negative (sid rc : Z) : Response :=
  {| service := 0x7f; returnCode := rc; requestServiceId := sid;
     securitySeed := 0; dataRecord := None |}.

(** A positive SecurityAccess response carrying [seed]. *)
Definition seed_response (seed : Z) : Response :=
  {| service := 0x67; returnCode := 0; requestServiceId := 0;
     securitySeed := seed; dataRecord := None |}.

Definition fresh (inb : list (option Response)) : World :=
  {| inbox := inb; trace := [] |}.

(** ** Further vocabulary *)

(** An answer slot that does not hold a response with service code [ok]: a
    timeout or a response with another code. *)
Definition not_answering (ok : Z) (x : option Response) : Prop :=
  match x with
  | Some r => service r <> ok
  | None => True
  end.

(** ProgrammingMode enableProgramming, the last message of the handshake. *)
Definition is_enable_programming (e : Event) : bool :=
  match e with
  | Send (GMLAN_PM s) => s =? 0x3
  | _ => false
  end.

Definition is_warning (e : Event) : bool :=
  match e with
  | Warning _ => true
  | _ => false
  end.

(** DisableNormalCommunication as [InitDiagnostics] sends it: broadcast when
    a broadcast socket is given, else as a request on the socket. *)
Definition disable_normal_communication
    (broadcastsocket : option BroadcastSocket) (t : option Z) : Event :=
  match broadcastsocket with
  | None => Sr1 (GMLAN_raw 0x28) t
  | Some _ => Broadcast (GMLAN_raw 0x28)
  end.

(** What an attempt of [InitDiagnostics] that did not get through leads to,
    from the world [w1] it leaves: with the budget used up the call returns
    [False] there; otherwise the call goes on as a call on [w1] with one
    retry less, which opens with DisableNormalCommunication again. *)
Definition handshake_retried (w w1 : World)
    (broadcastsocket : option BroadcastSocket) (t : option Z) (retry : Z)
  : Prop :=
  if Z.abs retry =? 0
  then InitDiagnostics w broadcastsocket t retry = Done false w1
  else
    InitDiagnostics w broadcastsocket t retry
    = InitDiagnostics w1 broadcastsocket t (Z.abs retry - 1)
    /\ exists b inb' delta,
        InitDiagnostics w broadcastsocket t retry
        = Done b {| inbox := inb';
                    trace := trace w1
                             ++ disable_normal_communication broadcastsocket t
                                :: delta |}.

(** What [GetSecurityAccess] may put on the transport, given the answers
    [inb] the ECU holds: a seed request at [level], or the key that
    [keyFunction] makes of a non-zero seed taken from a response of [inb]
    with service code 0x67, sent at [level + 1]. *)
Definition security_access_event (keyFunction : Z -> Z) (level : Z)
    (t : option Z) (inb : list (option Response)) (e : Event) : Prop :=
  e = Sr1 (GMLAN_SA level None) t
  \/ exists r,
       In (Some r) inb /\ service r = 0x67 /\ securitySeed r <> 0
       /\ e = Sr1 (GMLAN_SA (level + 1)
                     (Some (keyFunction (securitySeed r)))) t.

(** * Properties *)

(** Case analysis on every boolean test left in the goal. *)
Ltac split_ifs :=
  repeat match goal with
         | |- context [if negb ?c then _ else _] => destruct c; simpl
         | |- context [if ?c then _ else _] => destruct c; simpl
         end;
  try reflexivity.

(** ** Arithmetic and counting *)

Lemma normalize_retry_abs (r : Z) : normalize_retry r = Z.abs r.
Proof. unfold normalize_retry. destruct (Z.ltb_spec r 0); lia. Qed.

Lemma normalize_retry_nonneg (r : Z) : 0 <= normalize_retry r.
Proof. rewrite normalize_retry_abs. lia. Qed.

Lemma count_app (f : Event -> bool) (l1 l2 : list Event) :
  count f (l1 ++ l2) = (count f l1 + count f l2)%nat.
Proof. unfold count. now rewrite filter_app, length_app. Qed.

Lemma count_cons (f : Event -> bool) (e : Event) (l : list Event) :
  count f (e :: l) = ((if f e then 1 else 0) + count f l)%nat.
Proof. unfold count. simpl. now destruct (f e). Qed.

Lemma count_repeat_false (f : Event -> bool) (e : Event) (k : nat) :
  f e = false -> count f (repeat e k) = 0%nat.
Proof.
  intros Hf. induction k as [|k IH]; [reflexivity|].
  simpl repeat. rewrite count_cons, Hf. exact IH.
Qed.

Lemma chunks_sent_app (l1 l2 : list Event) :
  chunks_sent (l1 ++ l2) = chunks_sent l1 ++ chunks_sent l2.
Proof.
  induction l1 as [|e l1 IH]; [reflexivity|].
  destruct e as [[]| | | | |]; simpl; rewrite ?IH; reflexivity.
Qed.

Lemma chunks_sent_sniffs (p : Packet) (t : option Z) (k : nat) :
  chunks_sent (repeat (Sniff p t) k) = [].
Proof. induction k; simpl; auto. Qed.

(** ** The pending filter *)

(** The loop as the source writes it, one [sniff] per round. *)
Lemma filter_pending_eq sid pkt t resp inb tr :
  filter_pending sid pkt t resp inb tr =
  if is_pending sid resp then
    let '(sniffed, w') := sniff pkt t {| inbox := inb; trace := tr |} in
    if (length sniffed <? 1)%nat then (None, w')
    else match sniffed with
         | r :: _ => filter_pending sid pkt t r (inbox w') (trace w')
         | [] => (None, w')
         end
  else (Some resp, {| inbox := inb; trace := tr |}).
Proof.
  destruct inb as [|[r|] rest]; simpl; destruct (is_pending sid resp);
    reflexivity.
Qed.

(** The filter only sniffs, and what it hands back is never pending. *)
Lemma filter_pending_shape sid pkt t resp inb tr :
  exists inb' k,
    snd (filter_pending sid pkt t resp inb tr)
    = {| inbox := inb'; trace := tr ++ repeat (Sniff pkt t) k |}
    /\ (length inb' <= length inb)%nat
    /\ forall r, fst (filter_pending sid pkt t resp inb tr) = Some r ->
                 is_pending sid r = false.
Proof.
  revert resp tr. induction inb as [|x rest IH]; intros resp tr; simpl;
    destruct (is_pending sid resp) eqn:Hp.
  - exists [], 1%nat. simpl. repeat split; auto. discriminate.
  - exists [], 0%nat. simpl. rewrite app_nil_r. repeat split; auto.
    intros r [= <-]. exact Hp.
  - destruct x as [r|].
    + destruct (IH r (tr ++ [Sniff pkt t])) as (inb' & k & Hw & Hl & Hr).
      exists inb', (S k). rewrite Hw. simpl. rewrite <- app_assoc.
      repeat split; auto.
    + exists rest, 1%nat. simpl. repeat split; auto. discriminate.
  - exists (x :: rest), 0%nat. simpl. rewrite app_nil_r. repeat split; auto.
    intros r [= <-]. exact Hp.
Qed.

(** [k] pending answers, then a terminal one: the filter takes [k] sniffs and
    hands the terminal answer back. *)
Lemma filter_pending_run sid pkt t (ps : list Response) :
  Forall (fun r => is_pending sid r = true) ps ->
  forall resp x rest tr,
    is_pending sid resp = true ->
    match x with Some r => is_pending sid r = false | None => True end ->
    filter_pending sid pkt t resp (map Some ps ++ x :: rest) tr
    = (x, {| inbox := rest;
             trace := tr ++ repeat (Sniff pkt t) (S (length ps)) |}).
Proof.
  induction 1 as [|p ps Hp _ IH]; intros resp x rest tr Hresp Hx; simpl.
  - rewrite Hresp. destruct x as [r|]; [|reflexivity].
    destruct rest; simpl; rewrite Hx; reflexivity.
  - rewrite Hresp. rewrite (IH p x rest _ Hp Hx). simpl.
    rewrite <- app_assoc. reflexivity.
Qed.

(** ** One resolved request *)

Lemma resolve_shape sid pkt t w :
  exists inb' k,
    snd (resolve sid pkt t w)
    = {| inbox := inb';
         trace := trace w ++ Sr1 pkt t :: repeat (Sniff pkt t) k |}
    /\ forall r, fst (resolve sid pkt t w) = Some r -> is_pending sid r = false.
Proof.
  unfold resolve, sr1. destruct (inbox w) as [|[r|] rest].
  - exists [], 0%nat. simpl. split; auto. discriminate.
  - destruct (filter_pending_shape sid pkt t r rest (trace w ++ [Sr1 pkt t]))
      as (inb' & k & Hw & _ & Hr).
    exists inb', k. simpl. rewrite Hw, <- app_assoc. split; auto.
  - exists rest, 0%nat. simpl. split; auto. discriminate.
Qed.

(** The same on an inbox that opens with [length ps] pending answers followed
    by the terminal answer [x]. *)
Lemma resolve_run sid pkt t (ps : list Response) x rest tr :
  Forall (fun r => is_pending sid r = true) ps ->
  match x with Some r => is_pending sid r = false | None => True end ->
  resolve sid pkt t {| inbox := map Some ps ++ x :: rest; trace := tr |}
  = (x, {| inbox := rest;
           trace := tr ++ Sr1 pkt t :: repeat (Sniff pkt t) (length ps) |}).
Proof.
  intros Hps Hx. unfold resolve, sr1. destruct ps as [|p ps]; simpl.
  - destruct x as [r|]; [|reflexivity]. simpl.
    destruct rest; simpl; rewrite Hx; reflexivity.
  - inversion Hps as [|? ? Hp Hps']; subst.
    rewrite (filter_pending_run sid pkt t ps Hps' p x rest _ Hp Hx).
    rewrite <- app_assoc. reflexivity.
Qed.

(** The filter reads a prefix of the inbox; the answer it hands back is the
    response it was given or the last thing it read. *)
Lemma filter_pending_consumes sid pkt t :
  forall inb resp tr,
    exists consumed,
      inb = consumed ++ inbox (snd (filter_pending sid pkt t resp inb tr))
      /\ forall r, fst (filter_pending sid pkt t resp inb tr) = Some r ->
           (r = resp /\ consumed = [])
           \/ exists pre, consumed = pre ++ [Some r].
Proof.
  induction inb as [|x rest IH]; intros resp tr; simpl;
    destruct (is_pending sid resp).
  - exists []. split; [reflexivity|]. discriminate.
  - exists []. split; [reflexivity|]. intros r [= <-]. now left.
  - destruct x as [r1|].
    + destruct (IH r1 (tr ++ [Sniff pkt t])) as (consumed & Hinb & Hres).
      exists (Some r1 :: consumed). split; [simpl; now rewrite <- Hinb|].
      intros r Hr. right. destruct (Hres r Hr) as [[-> ->]|(pre & ->)].
      * now exists [].
      * now exists (Some r1 :: pre).
    + exists [None]. split; [reflexivity|]. discriminate.
  - exists []. split; [reflexivity|]. intros r [= <-]. now left.
Qed.

Lemma resolve_consumes sid pkt t w :
  exists consumed,
    inbox w = consumed ++ inbox (snd (resolve sid pkt t w))
    /\ forall r, fst (resolve sid pkt t w) = Some r ->
         exists pre, consumed = pre ++ [Some r].
Proof.
  unfold resolve, sr1. destruct (inbox w) as [|[r1|] rest]; simpl.
  - exists []. split; [reflexivity|]. discriminate.
  - destruct (filter_pending_consumes sid pkt t rest r1
                (trace w ++ [Sr1 pkt t])) as (consumed & Hinb & Hres).
    exists (Some r1 :: consumed). split; [simpl; now rewrite <- Hinb|].
    intros r Hr. destruct (Hres r Hr) as [[-> ->]|(pre & ->)].
    + now exists [].
    + now exists (Some r1 :: pre).
  - exists [None]. split; [reflexivity|]. discriminate.
Qed.


(** ** Retry counter and response pending *)
Lemma RequestDownload_absorbs length t :
  absorbs_pending 0x34 0x74 (GMLAN_RD length) t
    (RequestDownload_body length t) (fun _ => Break) false.
Proof.
  intros ps x rest tr retry Hps w w' failed. subst w w' failed.
  unfold RequestDownload_body.
  destruct x as [r|]; [intros Hr|]; rewrite resolve_run; auto;
    unfold consume_retry; split_ifs.
Qed.

Lemma RequestDownload_decrements length t :
  decrements_only_on_failure 0x34 0x74 (GMLAN_RD length) t
    (RequestDownload_body length t).
Proof.
  intros retry w. unfold RequestDownload_body.
  destruct (resolve_shape 0x34 (GMLAN_RD length) t w) as (_ & _ & _ & Hr).
  destruct (resolve 52 (GMLAN_RD length) t w) as [[r|] w1]; simpl in *;
    unfold consume_retry.
  - destruct (Z.eqb_spec (service r) 116); simpl.
    + now left.
    + right. destruct (retry - 1 >=? 0); simpl; auto.
  - right. destruct (retry - 1 >=? 0); simpl; auto.
Qed.

Lemma TransferData_absorbs addr payload maxmsglen t i :
  absorbs_pending 0x36 0x76
    (GMLAN_TD (addr + i) (transdata_at payload maxmsglen i)) t
    (TransferData_body addr payload maxmsglen t i) (fun _ => Break) false.
Proof.
  intros ps x rest tr retry Hps w w' failed. subst w w' failed.
  unfold TransferData_body.
  destruct x as [r|]; [intros Hr|]; rewrite resolve_run; auto;
    unfold consume_retry; split_ifs.
Qed.

Lemma TransferData_decrements addr payload maxmsglen t i :
  decrements_only_on_failure 0x36 0x76
    (GMLAN_TD (addr + i) (transdata_at payload maxmsglen i)) t
    (TransferData_body addr payload maxmsglen t i).
Proof.
  intros retry w. unfold TransferData_body.
  destruct (resolve_shape 0x36
              (GMLAN_TD (addr + i) (transdata_at payload maxmsglen i)) t w)
    as (_ & _ & _ & Hr).
  destruct (resolve 54 _ t w) as [[r|] w1]; simpl in *; unfold consume_retry.
  - destruct (Z.eqb_spec (service r) 118); simpl.
    + now left.
    + right. destruct (retry - 1 >=? 0); simpl; auto.
  - right. destruct (retry - 1 >=? 0); simpl; auto.
Qed.

Lemma ReadMemoryByAddress_absorbs addr length t :
  absorbs_pending 0x23 0x63 (GMLAN_RMBA addr length) t
    (ReadMemoryByAddress_body addr length t)
    (fun r => Return (dataRecord r)) None.
Proof.
  intros ps x rest tr retry Hps w w' failed. subst w w' failed.
  unfold ReadMemoryByAddress_body.
  destruct x as [r|]; [intros Hr|]; rewrite resolve_run; auto;
    unfold consume_retry; split_ifs.
Qed.

Lemma ReadMemoryByAddress_decrements addr length t :
  decrements_only_on_failure 0x23 0x63 (GMLAN_RMBA addr length) t
    (ReadMemoryByAddress_body addr length t).
Proof.
  intros retry w. unfold ReadMemoryByAddress_body.
  destruct (resolve_shape 0x23 (GMLAN_RMBA addr length) t w)
    as (_ & _ & _ & Hr).
  destruct (resolve 35 _ t w) as [[r|] w1]; simpl in *; unfold consume_retry.
  - destruct (Z.eqb_spec (service r) 99); simpl.
    + now left.
    + right. destruct (retry - 1 >=? 0); simpl; auto.
  - right. destruct (retry - 1 >=? 0); simpl; auto.
Qed.

(** A positive answer after any number of pending ones ends the loop at its
    first pass, whatever the counter holds. *)
Lemma RequestDownload_loop_pending fuel length t retry ps r rest tr :
  Forall (fun p => is_pending 0x34 p = true) ps ->
  service r = 0x74 ->
  RequestDownload_loop (S fuel) length t retry
    {| inbox := map Some ps ++ Some r :: rest; trace := tr |}
  = Done true
      {| inbox := rest;
         trace := tr ++ Sr1 (GMLAN_RD length) t
                     :: repeat (Sniff (GMLAN_RD length) t) (List.length ps) |}.
Proof.
  intros Hps Hr. simpl.
  pose proof (RequestDownload_absorbs length t ps (Some r) rest tr retry Hps)
    as H. simpl in H. rewrite H.
  - rewrite Hr. reflexivity.
  - unfold is_pending. rewrite Hr. reflexivity.
Qed.

Lemma ReadMemoryByAddress_loop_pending fuel addr length t retry ps r rest tr :
  Forall (fun p => is_pending 0x23 p = true) ps ->
  service r = 0x63 ->
  ReadMemoryByAddress_loop (S fuel) addr length t retry
    {| inbox := map Some ps ++ Some r :: rest; trace := tr |}
  = Done (dataRecord r)
      {| inbox := rest;
         trace := tr ++ Sr1 (GMLAN_RMBA addr length) t
                     :: repeat (Sniff (GMLAN_RMBA addr length) t)
                          (List.length ps) |}.
Proof.
  intros Hps Hr. simpl.
  pose proof (ReadMemoryByAddress_absorbs addr length t ps (Some r) rest tr
                retry Hps) as H. simpl in H. rewrite H.
  - rewrite Hr. reflexivity.
  - unfold is_pending. rewrite Hr. reflexivity.
Qed.

(** C1.  In [RequestDownload], in every chunk of [TransferData] and in
    [ReadMemoryByAddress], a pass through the retry loop that receives any
    number of consecutive response-pending answers echoing the request's
    service identifier leaves the retry counter as it was when the terminal
    answer is the positive one, and takes exactly one off it when the
    terminal outcome is a timeout or another answer; a pass never changes the
    counter otherwise.  So with a budget of zero a request answered
    positively after pending answers still goes through: [RequestDownload]
    returns [True], [ReadMemoryByAddress] returns the [dataRecord] of the
    positive answer. *)
Theorem pending_answers_keep_retry_counter :
  (forall length t,
      absorbs_pending 0x34 0x74 (GMLAN_RD length) t
        (RequestDownload_body length t) (fun _ => Break) false
      /\ decrements_only_on_failure 0x34 0x74 (GMLAN_RD length) t
           (RequestDownload_body length t))
  /\ (forall addr payload maxmsglen t i,
      absorbs_pending 0x36 0x76
        (GMLAN_TD (addr + i) (transdata_at payload maxmsglen i)) t
        (TransferData_body addr payload maxmsglen t i) (fun _ => Break) false
      /\ decrements_only_on_failure 0x36 0x76
           (GMLAN_TD (addr + i) (transdata_at payload maxmsglen i)) t
           (TransferData_body addr payload maxmsglen t i))
  /\ (forall addr length t,
      absorbs_pending 0x23 0x63 (GMLAN_RMBA addr length) t
        (ReadMemoryByAddress_body addr length t)
        (fun r => Return (dataRecord r)) None
      /\ decrements_only_on_failure 0x23 0x63 (GMLAN_RMBA addr length) t
           (ReadMemoryByAddress_body addr length t))
  /\ (forall ps r rest tr length t retry,
      Forall (fun p => is_pending 0x34 p = true) ps ->
      service r = 0x74 ->
      RequestDownload {| inbox := map Some ps ++ Some r :: rest; trace := tr |}
        length t retry
      = Done true
          {| inbox := rest;
             trace := tr ++ Sr1 (GMLAN_RD length) t
                         :: repeat (Sniff (GMLAN_RD length) t)
                              (List.length ps) |})
  /\ (forall scheme ps r rest tr addr length t retry,
      0 <= scheme -> 0 <= addr < 2 ^ (8 * scheme) ->
      0 < length <= 4094 - scheme ->
      Forall (fun p => is_pending 0x23 p = true) ps ->
      service r = 0x63 ->
      ReadMemoryByAddress scheme
        {| inbox := map Some ps ++ Some r :: rest; trace := tr |}
        addr length t retry
      = Done (dataRecord r)
          {| inbox := rest;
             trace := tr ++ Sr1 (GMLAN_RMBA addr length) t
                         :: repeat (Sniff (GMLAN_RMBA addr length) t)
                              (List.length ps) |}).
Proof.
  repeat split.
  - apply RequestDownload_absorbs.
  - apply RequestDownload_decrements.
  - apply TransferData_absorbs.
  - apply TransferData_decrements.
  - apply ReadMemoryByAddress_absorbs.
  - apply ReadMemoryByAddress_decrements.
  - intros. unfold RequestDownload.
    now apply RequestDownload_loop_pending.
  - intros scheme ps r rest tr addr length t retry Hs Ha Hl Hps Hr.
    unfold ReadMemoryByAddress, invalid_address.
    replace (addr <? 0) with false by lia.
    replace (addr >=? 2 ^ (8 * scheme)) with false by lia.
    replace (length <=? 0) with false by lia.
    replace (length >? 4094 - scheme) with false by lia. simpl orb. cbv iota.
    now apply ReadMemoryByAddress_loop_pending.
Qed.

(** ** Bounded retry loops *)


Lemma only_request_resolved pkt t k :
  only_request pkt t (Sr1 pkt t :: repeat (Sniff pkt t) k).
Proof.
  constructor; [now left|]. apply Forall_forall. intros e He.
  apply repeat_spec in He. now right.
Qed.

Lemma count_sent_resolved pkt t k :
  count is_sent (Sr1 pkt t :: repeat (Sniff pkt t) k) = 1%nat.
Proof. rewrite count_cons, count_repeat_false; reflexivity. Qed.

(** *** Loops of the shape [while True: ..; retry -= 1; if retry >= 0 ..] *)

Section WhileTrue.
Variable A : Type.
Variable pkt : Packet.
Variable t : option Z.
Variable failure : A.
(** The loop with everything but fuel, counter and world fixed. *)
Variable loop : nat -> Z -> World -> Run A.

(** A round resolves [pkt] once; it ends the loop with a result that is not
    [failure], or it takes one off the counter and then goes round again or
    ends the loop with [failure]. *)
Hypothesis loop_round :
  forall fuel retry w, exists inb' k,
    let w' := {| inbox := inb';
                 trace := trace w ++ Sr1 pkt t :: repeat (Sniff pkt t) k |} in
    (exists a, a <> failure /\ loop (S fuel) retry w = Done a w')
    \/ loop (S fuel) retry w
       = if retry - 1 >=? 0 then loop fuel (retry - 1) w'
         else Done failure w'.

Lemma while_true_attempts fuel :
  forall retry w,
    0 <= retry -> (Z.to_nat retry < fuel)%nat ->
    exists a inb' delta,
      loop fuel retry w = Done a {| inbox := inb'; trace := trace w ++ delta |}
      /\ only_request pkt t delta
      /\ (1 <= count is_sent delta <= Z.to_nat retry + 1)%nat
      /\ (a = failure -> count is_sent delta = (Z.to_nat retry + 1)%nat).
Proof.
  induction fuel as [|fuel IH]; intros retry w Hr Hf; [lia|].
  destruct (loop_round fuel retry w) as (inb1 & k & [(a & Ha & H)|H]);
    simpl in H; rewrite H.
  - exists a, inb1. eexists. split; [reflexivity|].
    rewrite count_sent_resolved.
    repeat split; try lia; [apply only_request_resolved|].
    intros Hfail. now elim Ha.
  - destruct (Z.geb_spec (retry - 1) 0) as [Hge|Hlt].
    + match goal with
      | |- context [loop fuel _ ?w1] =>
          destruct (IH (retry - 1) w1)
            as (a & inb2 & delta & Hrun & Hd & Hc & Ha); try lia
      end.
      rewrite Hrun. simpl trace. rewrite <- app_assoc.
      exists a, inb2. eexists. split; [reflexivity|].
      rewrite count_app, count_sent_resolved. repeat split; try lia.
      * apply Forall_app. split; [apply only_request_resolved|exact Hd].
      * intros Hfail. specialize (Ha Hfail). lia.
    + exists failure, inb1. eexists. split; [reflexivity|].
      rewrite count_sent_resolved.
      repeat split; try lia. apply only_request_resolved.
Qed.
End WhileTrue.
Arguments while_true_attempts {A} pkt t failure loop loop_round fuel.

Lemma RequestDownload_body_step length t retry w :
  exists inb' k,
    let w' := {| inbox := inb';
                 trace := trace w ++ Sr1 (GMLAN_RD length) t
                            :: repeat (Sniff (GMLAN_RD length) t) k |} in
    RequestDownload_body length t retry w = (Break, retry, w')
    \/ RequestDownload_body length t retry w = consume_retry false retry w'.
Proof.
  unfold RequestDownload_body.
  destruct (resolve_shape 0x34 (GMLAN_RD length) t w) as (inb' & k & Hw & _).
  exists inb', k.
  destruct (resolve 52 (GMLAN_RD length) t w) as [[r|] w1]; simpl in *;
    subst w1; [destruct (service r =? 116); simpl|]; auto.
Qed.

Lemma RequestDownload_loop_attempts length t fuel :
  forall retry w,
    0 <= retry -> (Z.to_nat retry < fuel)%nat ->
    exists b inb' delta,
      RequestDownload_loop fuel length t retry w
      = Done b {| inbox := inb'; trace := trace w ++ delta |}
      /\ only_request (GMLAN_RD length) t delta
      /\ (1 <= count is_sent delta <= Z.to_nat retry + 1)%nat
      /\ (b = false -> count is_sent delta = (Z.to_nat retry + 1)%nat).
Proof.
  apply (while_true_attempts (GMLAN_RD length) t false
           (fun fuel => RequestDownload_loop fuel length t)).
  intros f retry w. cbn [RequestDownload_loop].
  destruct (RequestDownload_body_step length t retry w)
    as (inb' & k & [H|H]); exists inb', k; simpl in H; rewrite H.
  - left. exists true. split; [discriminate|reflexivity].
  - right. unfold consume_retry. now destruct (retry - 1 >=? 0).
Qed.

Lemma TransferData_body_step addr payload maxmsglen t i retry w :
  let pkt := GMLAN_TD (addr + i) (transdata_at payload maxmsglen i) in
  exists inb' k,
    let w' := {| inbox := inb';
                 trace := trace w ++ Sr1 pkt t :: repeat (Sniff pkt t) k |} in
    TransferData_body addr payload maxmsglen t i retry w = (Break, retry, w')
    \/ TransferData_body addr payload maxmsglen t i retry w
       = consume_retry false retry w'.
Proof.
  intros pkt. unfold TransferData_body. fold pkt.
  destruct (resolve_shape 0x36 pkt t w) as (inb' & k & Hw & _).
  exists inb', k.
  destruct (resolve 54 pkt t w) as [[r|] w1]; simpl in *;
    subst w1; [destruct (service r =? 118); simpl|]; auto.
Qed.

Lemma TransferData_while_attempts addr payload maxmsglen t i fuel :
  forall retry w,
    0 <= retry -> (Z.to_nat retry < fuel)%nat ->
    exists b inb' delta,
      TransferData_while fuel addr payload maxmsglen t i retry w
      = Done b {| inbox := inb'; trace := trace w ++ delta |}
      /\ only_request
           (GMLAN_TD (addr + i) (transdata_at payload maxmsglen i)) t delta
      /\ (1 <= count is_sent delta <= Z.to_nat retry + 1)%nat
      /\ (b = false -> count is_sent delta = (Z.to_nat retry + 1)%nat).
Proof.
  apply (while_true_attempts
           (GMLAN_TD (addr + i) (transdata_at payload maxmsglen i)) t false
           (fun fuel => TransferData_while fuel addr payload maxmsglen t i)).
  intros f retry w. cbn [TransferData_while].
  destruct (TransferData_body_step addr payload maxmsglen t i retry w)
    as (inb' & k & [H|H]); exists inb', k; simpl in H; rewrite H.
  - left. exists true. split; [discriminate|reflexivity].
  - right. unfold consume_retry. now destruct (retry - 1 >=? 0).
Qed.

Lemma ReadMemoryByAddress_body_step addr length t retry w :
  let pkt := GMLAN_RMBA addr length in
  exists consumed inb' k,
    inbox w = consumed ++ inb'
    /\ let w' := {| inbox := inb';
                    trace := trace w ++ Sr1 pkt t
                               :: repeat (Sniff pkt t) k |} in
       (exists r0 pre,
           service r0 = 0x63 /\ consumed = pre ++ [Some r0]
           /\ ReadMemoryByAddress_body addr length t retry w
              = (Return (dataRecord r0), retry, w'))
       \/ ReadMemoryByAddress_body addr length t retry w
          = consume_retry None retry w'.
Proof.
  intros pkt. unfold ReadMemoryByAddress_body. fold pkt.
  destruct (resolve_shape 0x23 pkt t w) as (inb' & k & Hw & _).
  destruct (resolve_consumes 0x23 pkt t w) as (consumed & Hinb & Hres).
  rewrite Hw in Hinb. simpl in Hinb.
  exists consumed, inb', k. split; [exact Hinb|].
  destruct (resolve 35 pkt t w) as [[r|] w1]; simpl in *; subst w1;
    [|now right].
  destruct (Z.eqb_spec (service r) 99) as [Hs|Hs]; simpl; [|now right].
  left. destruct (Hres r eq_refl) as (pre & ->). now exists r, pre.
Qed.

(** The call's loop returns after at most [retry + 1] requests; when it
    returns [None] it has sent [retry + 1] requests, or the response with
    service code 0x63 that it read last carries no data. *)
Lemma ReadMemoryByAddress_loop_attempts addr length t fuel :
  forall retry w,
    0 <= retry -> (Z.to_nat retry < fuel)%nat ->
    exists res inb' delta,
      ReadMemoryByAddress_loop fuel addr length t retry w
      = Done res {| inbox := inb'; trace := trace w ++ delta |}
      /\ only_request (GMLAN_RMBA addr length) t delta
      /\ (1 <= count is_sent delta <= Z.to_nat retry + 1)%nat
      /\ (res = None ->
          count is_sent delta = (Z.to_nat retry + 1)%nat
          \/ exists pre r0,
               inbox w = pre ++ Some r0 :: inb'
               /\ service r0 = 0x63 /\ dataRecord r0 = None).
Proof.
  induction fuel as [|fuel IH]; intros retry w Hr Hf; [lia|].
  cbn [ReadMemoryByAddress_loop].
  destruct (ReadMemoryByAddress_body_step addr length t retry w)
    as (consumed & inb1 & k & Hinb & [(r0 & pre & Hs & -> & H)|H]);
    simpl in H; rewrite H.
  - eexists (dataRecord r0), inb1, _. split; [reflexivity|].
    rewrite count_sent_resolved.
    repeat split; try lia; [apply only_request_resolved|].
    intros Hnone. right. exists pre, r0.
    rewrite Hinb, <- app_assoc. auto.
  - unfold consume_retry. destruct (Z.geb_spec (retry - 1) 0) as [Hge|Hlt].
    + match goal with
      | |- context [ReadMemoryByAddress_loop _ _ _ _ _ ?w1] =>
          destruct (IH (retry - 1) w1)
            as (res & inb2 & delta & Hrun & Hd & Hc & Hnone); try lia
      end.
      rewrite Hrun. simpl trace. rewrite <- app_assoc.
      eexists res, inb2, _. split; [reflexivity|].
      rewrite count_app, count_sent_resolved. repeat split; try lia.
      * apply Forall_app. split; [apply only_request_resolved|exact Hd].
      * intros Hres. destruct (Hnone Hres) as [Hn|(pre & r0 & Hi & Hs & Hd0)].
        -- left. lia.
        -- right. exists (consumed ++ pre), r0. simpl in Hi.
           rewrite Hinb, Hi, <- app_assoc. auto.
    + eexists None, inb1, _. split; [reflexivity|].
      rewrite count_sent_resolved.
      repeat split; try lia. apply only_request_resolved.
Qed.

(** One pass of [InitDiagnostics] sends DisableNormalCommunication once and
    either asks for another pass or returns [True]. *)
Lemma InitDiagnostics_body_step bs t w :
  exists ctl inb' delta,
    InitDiagnostics_body bs t w
    = (ctl, {| inbox := inb'; trace := trace w ++ delta |})
    /\ count is_disable_normal_communication delta = 1%nat
    /\ (ctl = Continue \/ ctl = Return true).
Proof.
  unfold InitDiagnostics_body, InitDiagnostics_programming, sr1, sleep, send,
    broadcast_send, log.
  destruct bs as [b|]; simpl;
    destruct (inbox w) as [|[r1|] [|[r2|] [|[r3|] rest]]]; simpl;
    repeat match goal with
           | |- context [negb (?a =? ?b)] => destruct (a =? b); simpl
           end;
    rewrite <- ?app_assoc; simpl;
    eexists _, _, _; (split; [reflexivity|split; [reflexivity|auto]]).
Qed.

(** One pass of [GetSecurityAccess] sends one seed request. *)
Lemma GetSecurityAccess_body_step keyFunction level t w :
  exists ctl inb' delta,
    GetSecurityAccess_body keyFunction level t w
    = (ctl, {| inbox := inb'; trace := trace w ++ delta |})
    /\ count is_seed_request delta = 1%nat
    /\ (ctl = Continue \/ ctl = Return true).
Proof.
  unfold GetSecurityAccess_body, sr1.
  destruct (inbox w) as [|[r1|] [|[r2|] rest]]; simpl;
    repeat match goal with
           | |- context [if negb (?a =? ?b) then _ else _] =>
               destruct (a =? b); simpl
           | |- context [if ?c then _ else _] => destruct c; simpl
           end;
    rewrite <- ?app_assoc; simpl;
    eexists _, _, _; (split; [reflexivity|split; [reflexivity|auto]]).
Qed.

Lemma world_eta (w : World) :
  w = {| inbox := inbox w; trace := trace w ++ [] |}.
Proof. destruct w; simpl. now rewrite app_nil_r. Qed.

(** *** Loops of the shape [while retry >= 0: retry -= 1; ..] *)

Section WhileBudget.
(** What opens an attempt. *)
Variable opens : Event -> bool.
Variable loop : nat -> Z -> World -> Run bool.

(** With the counter below zero the loop ends with [False]; otherwise a
    round opens one attempt and either returns [True] or goes round again
    with one off the counter. *)
Hypothesis loop_round :
  forall fuel retry w,
    (retry < 0 -> loop (S fuel) retry w = Done false w)
    /\ (0 <= retry ->
        exists inb' delta,
          let w' := {| inbox := inb'; trace := trace w ++ delta |} in
          count opens delta = 1%nat
          /\ (loop (S fuel) retry w = Done true w'
              \/ loop (S fuel) retry w = loop fuel (retry - 1) w')).

Lemma while_budget_attempts fuel :
  forall retry w,
    -1 <= retry -> (Z.to_nat (retry + 1) < fuel)%nat ->
    exists b inb' delta,
      loop fuel retry w = Done b {| inbox := inb'; trace := trace w ++ delta |}
      /\ (count opens delta <= Z.to_nat (retry + 1))%nat
      /\ (b = false -> count opens delta = Z.to_nat (retry + 1)).
Proof.
  induction fuel as [|fuel IH]; intros retry w Hr Hf; [lia|].
  destruct (loop_round fuel retry w) as (Hneg & Hpos).
  destruct (Z.lt_ge_cases retry 0) as [Hlt|Hge].
  - rewrite (Hneg Hlt). exists false, (inbox w), [].
    split; [f_equal; apply world_eta|].
    replace (retry + 1) with 0 by lia. split; [apply Nat.le_refl|reflexivity].
  - destruct (Hpos Hge) as (inb1 & d1 & Hc & [H|H]); simpl in H; rewrite H.
    + exists true, inb1, d1. split; [reflexivity|]. rewrite Hc.
      split; [lia|discriminate].
    + destruct (IH (retry - 1) {| inbox := inb1; trace := trace w ++ d1 |})
        as (b & inb2 & d2 & Hrun & Hle & Hb); try lia.
      rewrite Hrun. simpl trace. rewrite <- app_assoc.
      exists b, inb2, (d1 ++ d2). split; [reflexivity|].
      rewrite count_app, Hc. split; [lia|].
      intros Hfalse. specialize (Hb Hfalse). lia.
Qed.
End WhileBudget.

Lemma InitDiagnostics_loop_attempts bs t fuel :
  forall retry w,
    -1 <= retry -> (Z.to_nat (retry + 1) < fuel)%nat ->
    exists b inb' delta,
      InitDiagnostics_loop fuel bs t retry w
      = Done b {| inbox := inb'; trace := trace w ++ delta |}
      /\ (count is_disable_normal_communication delta
          <= Z.to_nat (retry + 1))%nat
      /\ (b = false ->
          count is_disable_normal_communication delta
          = Z.to_nat (retry + 1)).
Proof.
  apply (while_budget_attempts is_disable_normal_communication
           (fun fuel => InitDiagnostics_loop fuel bs t)).
  intros f retry w. cbn [InitDiagnostics_loop]. split.
  - intros Hlt. now replace (retry >=? 0) with false by lia.
  - intros Hge. replace (retry >=? 0) with true by lia.
    destruct (InitDiagnostics_body_step bs t w)
      as (ctl & inb1 & d1 & H & Hc & [->| ->]); rewrite H;
      exists inb1, d1; (split; [exact Hc|]); [now right|now left].
Qed.

Lemma GetSecurityAccess_loop_attempts keyFunction level t fuel :
  forall retry w,
    -1 <= retry -> (Z.to_nat (retry + 1) < fuel)%nat ->
    exists b inb' delta,
      GetSecurityAccess_loop fuel keyFunction level t retry w
      = Done b {| inbox := inb'; trace := trace w ++ delta |}
      /\ (count is_seed_request delta <= Z.to_nat (retry + 1))%nat
      /\ (b = false -> count is_seed_request delta = Z.to_nat (retry + 1)).
Proof.
  apply (while_budget_attempts is_seed_request
           (fun fuel => GetSecurityAccess_loop fuel keyFunction level t)).
  intros f retry w. cbn [GetSecurityAccess_loop]. split.
  - intros Hlt. now replace (retry >=? 0) with false by lia.
  - intros Hge. replace (retry >=? 0) with true by lia.
    destruct (GetSecurityAccess_body_step keyFunction level t w)
      as (ctl & inb1 & d1 & H & Hc & [->| ->]); rewrite H;
      exists inb1, d1; (split; [exact Hc|]); [now right|now left].
Qed.

(** Requests to one address, counted in what one chunk's loop adds. *)
Lemma count_chunk_only_request a a' d t delta :
  only_request (GMLAN_TD a' d) t delta ->
  count (is_chunk_at a) delta
  = if a' =? a then count is_sent delta else 0%nat.
Proof.
  induction 1 as [|e delta He _ IH]; [now destruct (a' =? a)|].
  rewrite !count_cons, IH.
  destruct He as [-> | ->]; simpl; destruct (a' =? a); reflexivity.
Qed.

Lemma chunks_sent_only_request a d t delta :
  only_request (GMLAN_TD a d) t delta ->
  Forall (fun c => c = (a, d)) (chunks_sent delta).
Proof.
  induction 1 as [|e delta He _ IH]; [constructor|].
  destruct He as [-> | ->]; simpl; auto.
Qed.

(** The [for] loop of [TransferData]: it returns, every request it sends is
    the chunk of one of its offsets, and no address is tried more than
    [retry + 1] times. *)
Lemma TransferData_for_attempts addr payload maxmsglen t retry :
  0 <= retry ->
  forall offsets w,
    NoDup offsets ->
    exists b inb' delta,
      TransferData_for offsets addr payload maxmsglen t retry w
      = Done b {| inbox := inb'; trace := trace w ++ delta |}
      /\ Forall (fun c => exists i, In i offsets
                          /\ c = (addr + i, transdata_at payload maxmsglen i))
           (chunks_sent delta)
      /\ (forall a, ~ In (a - addr) offsets ->
                    count (is_chunk_at a) delta = 0%nat)
      /\ (forall a, (count (is_chunk_at a) delta <= Z.to_nat retry + 1)%nat)
      /\ count is_sent delta = List.length (chunks_sent delta)
      /\ (offsets <> [] -> (1 <= count is_sent delta)%nat).
Proof.
  intros Hr. induction offsets as [|i offsets IH]; intros w Hnd.
  - exists true, (inbox w), []. simpl.
    split; [f_equal; apply world_eta|]. repeat split; auto.
    + intros a. unfold count. simpl. lia.
    + intros H. now elim H.
  - inversion Hnd as [|? ? Hni Hnd']; subst. cbn [TransferData_for].
    destruct (TransferData_while_attempts addr payload maxmsglen t i
                (S (Z.to_nat retry)) retry w Hr)
      as (b1 & inb1 & d1 & Hrun1 & Hd1 & Hc1 & Hb1); [lia|].
    rewrite Hrun1.
    assert (Hcnt1 : forall a, count (is_chunk_at a) d1
                    = if addr + i =? a then count is_sent d1 else 0%nat)
      by (intros a; eapply count_chunk_only_request; eauto).
    assert (Hch1 : Forall (fun c => exists j, In j (i :: offsets)
                     /\ c = (addr + j, transdata_at payload maxmsglen j))
                     (chunks_sent d1)).
    { eapply Forall_impl; [|eapply chunks_sent_only_request; eauto].
      intros c ->. exists i. split; [now left|reflexivity]. }
    assert (Hlen1 : count is_sent d1 = List.length (chunks_sent d1)).
    { clear -Hd1. induction Hd1 as [|e d He _ IHd]; [reflexivity|].
      rewrite count_cons. destruct He as [-> | ->]; simpl; rewrite IHd;
        reflexivity. }
    destruct b1.
    + destruct (IH {| inbox := inb1; trace := trace w ++ d1 |} Hnd')
        as (b & inb2 & d2 & Hrun2 & Hch2 & Hz2 & Hc2 & Hlen2 & _).
      rewrite Hrun2. simpl trace. rewrite <- app_assoc.
      exists b, inb2, (d1 ++ d2). split; [reflexivity|].
      rewrite chunks_sent_app, !count_app, length_app.
      split; [|split; [|split; [|split]]].
      * apply Forall_app. split; [exact Hch1|].
        eapply Forall_impl; [|exact Hch2].
        intros c (j & Hj & ->). exists j. split; [now right|reflexivity].
      * intros a Ha. rewrite count_app, Hcnt1, Hz2.
        -- destruct (Z.eqb_spec (addr + i) a); [|reflexivity].
           exfalso. apply Ha. left. lia.
        -- intros Hin. apply Ha. now right.
      * intros a. rewrite count_app, Hcnt1.
        destruct (Z.eqb_spec (addr + i) a) as [Heq|Hne].
        -- rewrite Hz2; [lia|]. replace (a - addr) with i by lia. exact Hni.
        -- specialize (Hc2 a). lia.
      * lia.
      * lia.
    + exists false, inb1, d1. split; [reflexivity|].
      split; [exact Hch1|]. split; [|split; [|split]].
      * intros a Ha. rewrite Hcnt1.
        destruct (Z.eqb_spec (addr + i) a); [|reflexivity].
        exfalso. apply Ha. left. lia.
      * intros a. rewrite Hcnt1. destruct (addr + i =? a); lia.
      * exact Hlen1.
      * lia.
Qed.

(** ** Offsets and slices *)

Lemma py_range_offsets stop step offsets :
  py_range 0 stop step = Some offsets ->
  0 <= stop ->
  NoDup offsets
  /\ (forall i, In i offsets -> 0 < step /\ 0 <= i < stop).
Proof.
  unfold py_range. destruct (Z.eqb_spec step 0) as [|Hne]; [discriminate|].
  intros [= <-] Hstop. split.
  - apply Injective_map_NoDup; [|apply seq_NoDup].
    intros j k Hjk. simpl in Hjk. nia.
  - intros i Hi. apply in_map_iff in Hi. destruct Hi as (k & <- & Hk).
    apply in_seq in Hk. simpl in *.
    destruct (Z.ltb_spec 0 step) as [Hpos|Hneg].
    + destruct (Z.ltb_spec 0 stop) as [Hs|Hs]; [|simpl in Hk; lia].
      split; [lia|]. split; [nia|].
      assert (Z.of_nat k <= (stop - 0 - 1) / step) by lia.
      pose proof (Z.mul_div_le (stop - 0 - 1) step Hpos). nia.
    + destruct (Z.ltb_spec stop 0); [lia|]. simpl in Hk. lia.
Qed.

Lemma normalize_retry_idem (r : Z) :
  normalize_retry (Z.abs r) = normalize_retry r.
Proof. rewrite !normalize_retry_abs. lia. Qed.

Lemma len_nonneg {A : Type} (l : list A) : 0 <= len l.
Proof. unfold len. lia. Qed.

(** ** Retry budget *)

(** C2.  Whatever its sign, the caller's [retry] is first replaced by its
    absolute value, so a call with [r] is the call with [|r|]; every call
    returns, and its retry loop goes through at most [|r| + 1] attempts:
    at most [|r| + 1] DisableNormalCommunication messages in
    [InitDiagnostics], seed requests in [GetSecurityAccess], requests in
    [RequestDownload] and [ReadMemoryByAddress], and requests per chunk
    address in [TransferData].  [False] is returned after exactly
    [|r| + 1] attempts, or before the first one when an argument is
    rejected; [ReadMemoryByAddress] returns [None] in these two cases and
    also when the response with service code 0x63 that it read last carries
    no [dataRecord].  (The answers of a world are finitely many; see
    [filter_pending].) *)
Theorem retry_budget_bounds_attempts (r : Z) :
  let n := (Z.to_nat (Z.abs r) + 1)%nat in
  normalize_retry r = Z.abs r
  /\ (forall w bs t,
        InitDiagnostics w bs t r = InitDiagnostics w bs t (Z.abs r)
        /\ exists b inb' delta,
            InitDiagnostics w bs t r
            = Done b {| inbox := inb'; trace := trace w ++ delta |}
            /\ (count is_disable_normal_communication delta <= n)%nat
            /\ (b = false ->
                count is_disable_normal_communication delta = n))
  /\ (forall w keyFunction level t,
        GetSecurityAccess w keyFunction level t r
        = GetSecurityAccess w keyFunction level t (Z.abs r)
        /\ exists b inb' delta,
            GetSecurityAccess w keyFunction level t r
            = Done b {| inbox := inb'; trace := trace w ++ delta |}
            /\ (count is_seed_request delta <= n)%nat
            /\ (b = false ->
                count is_seed_request delta = 0%nat
                \/ count is_seed_request delta = n))
  /\ (forall w length t,
        RequestDownload w length t r = RequestDownload w length t (Z.abs r)
        /\ exists b inb' delta,
            RequestDownload w length t r
            = Done b {| inbox := inb'; trace := trace w ++ delta |}
            /\ (count is_sent delta <= n)%nat
            /\ (b = false -> count is_sent delta = n))
  /\ (forall scheme w addr payload maxmsglen t,
        TransferData scheme w addr payload maxmsglen t r
        = TransferData scheme w addr payload maxmsglen t (Z.abs r)
        /\ exists inb' delta,
            final_world (TransferData scheme w addr payload maxmsglen t r)
            = Some {| inbox := inb'; trace := trace w ++ delta |}
            /\ forall a, (count (is_chunk_at a) delta <= n)%nat)
  /\ (forall scheme w addr length t,
        ReadMemoryByAddress scheme w addr length t r
        = ReadMemoryByAddress scheme w addr length t (Z.abs r)
        /\ exists res inb' delta,
            ReadMemoryByAddress scheme w addr length t r
            = Done res {| inbox := inb'; trace := trace w ++ delta |}
            /\ (count is_sent delta <= n)%nat
            /\ (res = None ->
                count is_sent delta = 0%nat \/ count is_sent delta = n
                \/ exists pre r0,
                     inbox w = pre ++ Some r0 :: inb'
                     /\ service r0 = 0x63 /\ dataRecord r0 = None)).
Proof.
  intros n. subst n.
  pose proof (normalize_retry_abs r) as Habs.
  pose proof (normalize_retry_idem r) as Hidem.
  split; [exact Habs|]. repeat apply conj.
  - intros w bs t. unfold InitDiagnostics. rewrite Hidem, Habs.
    split; [reflexivity|].
    destruct (InitDiagnostics_loop_attempts bs t
                (S (S (Z.to_nat (Z.abs r)))) (Z.abs r) w)
      as (b & inb' & delta & Hrun & Hle & Hb); try lia.
    exists b, inb', delta. split; [exact Hrun|]. split; [lia|].
    intros Hf. specialize (Hb Hf). lia.
  - intros w keyFunction level t. unfold GetSecurityAccess.
    rewrite Hidem, Habs. split; [reflexivity|].
    destruct (level mod 2 =? 0).
    + exists false, (inbox w), [Warning OddLevelExpected].
      split; [reflexivity|]. split; [unfold count; simpl; lia|now left].
    + destruct (GetSecurityAccess_loop_attempts keyFunction level t
                  (S (S (Z.to_nat (Z.abs r)))) (Z.abs r) w)
        as (b & inb' & delta & Hrun & Hle & Hb); try lia.
      exists b, inb', delta. split; [exact Hrun|]. split; [lia|].
      intros Hf. specialize (Hb Hf). right. lia.
  - intros w length t. unfold RequestDownload. rewrite Hidem, Habs.
    split; [reflexivity|].
    destruct (RequestDownload_loop_attempts length t
                (S (Z.to_nat (Z.abs r))) (Z.abs r) w)
      as (b & inb' & delta & Hrun & _ & Hle & Hb); try lia.
    exists b, inb', delta. split; [exact Hrun|]. split; [lia|exact Hb].
  - intros scheme w addr payload maxmsglen t. unfold TransferData.
    rewrite Hidem, Habs. split; [reflexivity|].
    destruct (invalid_address scheme addr).
    + exists (inbox w), [Warning (InvalidAddress addr scheme)].
      split; [reflexivity|]. intros a. unfold count. simpl. lia.
    + destruct (py_range 0 (len payload)
                  (effective_maxmsglen scheme maxmsglen))
        as [offsets|] eqn:Hrange.
      * destruct (py_range_offsets _ _ _ Hrange (len_nonneg payload))
          as (Hnd & _).
        destruct (TransferData_for_attempts addr payload
                    (effective_maxmsglen scheme maxmsglen) t
                    (Z.abs r) ltac:(lia) offsets w Hnd)
          as (b & inb' & delta & Hrun & _ & _ & Hle & _).
        exists inb', delta. rewrite Hrun. split; [reflexivity|exact Hle].
      * exists (inbox w), []. simpl. split; [f_equal; apply world_eta|].
        intros a. unfold count. simpl. lia.
  - intros scheme w addr length t. unfold ReadMemoryByAddress.
    rewrite Hidem, Habs. split; [reflexivity|].
    destruct (invalid_address scheme addr).
    + exists None, (inbox w), [Warning (InvalidAddress addr scheme)].
      split; [reflexivity|]. split; [unfold count; simpl; lia|now left].
    + destruct ((length <=? 0) || (length >? 4094 - scheme)).
      * exists None, (inbox w), [Warning (InvalidLength length scheme)].
        split; [reflexivity|]. split; [unfold count; simpl; lia|now left].
      * destruct (ReadMemoryByAddress_loop_attempts addr length t
                    (S (Z.to_nat (Z.abs r))) (Z.abs r) w)
          as (res & inb' & delta & Hrun & _ & Hle & Hb); try lia.
        exists res, inb', delta. split; [exact Hrun|]. split; [lia|].
        intros Hn. right. exact (Hb Hn).
Qed.

(** ** Security access *)

Lemma odd_level_mod level : Z.odd level = true -> (level mod 2 =? 0) = false.
Proof.
  intros H. apply Z.eqb_neq. rewrite Zmod_odd, H. discriminate.
Qed.

Lemma even_level_mod level : Z.even level = true -> (level mod 2 =? 0) = true.
Proof.
  intros H. apply Z.eqb_eq. rewrite Zmod_even, H. reflexivity.
Qed.

(** C5.  With an even [level], [GetSecurityAccess] returns [False] at once,
    whatever the retry budget, the timeout and the key function: the only
    thing it does is raise the warning, nothing is sent and no answer is
    read. *)
Theorem even_level_is_rejected_without_traffic
    (w : World) (keyFunction : Z -> Z) (level : Z) (t : option Z) (retry : Z) :
  Z.even level = true ->
  GetSecurityAccess w keyFunction level t retry
  = Done false {| inbox := inbox w;
                  trace := trace w ++ [Warning OddLevelExpected] |}
  /\ messages_sent (trace w ++ [Warning OddLevelExpected])
     = messages_sent (trace w).
Proof.
  intros Heven. unfold GetSecurityAccess.
  rewrite (even_level_mod _ Heven). split; [reflexivity|].
  unfold messages_sent. rewrite count_app. unfold count at 2. simpl. lia.
Qed.

(** C6.  When the first seed request is answered by a response with service
    code 0x67 whose seed is zero, [GetSecurityAccess] returns [True] having
    sent that one seed request and nothing else: no key message. *)
Theorem zero_seed_returns_success_without_key
    (w : World) (keyFunction : Z -> Z) (level : Z) (t : option Z) (retry : Z)
    (r : Response) (rest : list (option Response)) :
  Z.odd level = true ->
  inbox w = Some r :: rest ->
  service r = 0x67 ->
  securitySeed r = 0 ->
  GetSecurityAccess w keyFunction level t retry
  = Done true {| inbox := rest;
                 trace := trace w ++ [Sr1 (GMLAN_SA level None) t] |}
  /\ messages_sent (trace w ++ [Sr1 (GMLAN_SA level None) t])
     = S (messages_sent (trace w)).
Proof.
  intros Hodd Hin Hs Hseed. unfold GetSecurityAccess.
  rewrite (odd_level_mod _ Hodd). split.
  - cbn [GetSecurityAccess_loop].
    replace (normalize_retry retry >=? 0) with true
      by (pose proof (normalize_retry_nonneg retry); lia).
    unfold GetSecurityAccess_body, sr1. rewrite Hin, Hs, Hseed. reflexivity.
  - unfold messages_sent. rewrite count_app. unfold count at 2. simpl. lia.
Qed.

Lemma GetSecurityAccess_body_opens keyFunction level t w :
  exists ctl inb' delta,
    GetSecurityAccess_body keyFunction level t w
    = (ctl, {| inbox := inb';
               trace := trace w ++ Sr1 (GMLAN_SA level None) t :: delta |})
    /\ (ctl = Continue \/ ctl = Return true).
Proof.
  unfold GetSecurityAccess_body, sr1.
  destruct (inbox w) as [|[r1|] [|[r2|] rest]]; simpl;
    repeat match goal with
           | |- context [if negb (?a =? ?b) then _ else _] =>
               destruct (a =? b); simpl
           | |- context [if ?c then _ else _] => destruct c; simpl
           end;
    rewrite <- ?app_assoc; simpl;
    eexists _, _, _; (split; [reflexivity|auto]).
Qed.

Lemma GetSecurityAccess_loop_S fuel keyFunction level t retry w :
  GetSecurityAccess_loop (S fuel) keyFunction level t retry w
  = if retry >=? 0 then
      match GetSecurityAccess_body keyFunction level t w with
      | (Return b, w') => Done b w'
      | (_, w') =>
          GetSecurityAccess_loop fuel keyFunction level t (retry - 1) w'
      end
    else Done false w.
Proof. reflexivity. Qed.

(** With an odd level the first thing a call does is ask for a seed. *)
Lemma GetSecurityAccess_opens_with_seed keyFunction level t :
  Z.odd level = true ->
  forall w retry,
    exists b inb' delta,
      GetSecurityAccess w keyFunction level t retry
      = Done b {| inbox := inb';
                  trace := trace w ++ Sr1 (GMLAN_SA level None) t :: delta |}.
Proof.
  intros Hodd w retry. unfold GetSecurityAccess.
  rewrite (odd_level_mod _ Hodd), GetSecurityAccess_loop_S.
  pose proof (normalize_retry_nonneg retry) as Hn.
  replace (normalize_retry retry >=? 0) with true by lia.
  destruct (GetSecurityAccess_body_opens keyFunction level t w)
    as (ctl & inb1 & d1 & H & [->| ->]); rewrite H; cbv beta iota.
  - match goal with
    | |- context [GetSecurityAccess_loop ?f _ _ _ ?r ?w1] =>
        destruct (GetSecurityAccess_loop_attempts keyFunction level t f r w1)
          as (b & inb2 & d2 & Hrun & _); try lia
    end.
    rewrite Hrun. simpl trace. rewrite <- app_assoc. simpl.
    now exists b, inb2, (d1 ++ d2).
  - now exists true, inb1, d1.
Qed.


Lemma GetSecurityAccess_key_step_retried
    w keyFunction level t retry seedr x rest :
  Z.odd level = true ->
  inbox w = Some seedr :: x :: rest ->
  service seedr = 0x67 ->
  securitySeed seedr <> 0 ->
  match x with Some r => service r <> 0x67 | None => True end ->
  key_step_retried w
    {| inbox := rest;
       trace := trace w ++
                [Sr1 (GMLAN_SA level None) t;
                 Sr1 (GMLAN_SA (level + 1)
                        (Some (keyFunction (securitySeed seedr)))) t] |}
    keyFunction level t retry.
Proof.
  intros Hodd Hin Hs Hseed Hx.
  set (w2 := {| inbox := rest; trace := _ |}).
  assert (Hbody : GetSecurityAccess_body keyFunction level t w
                  = (Continue, w2)).
  { unfold GetSecurityAccess_body, sr1. rewrite Hin, Hs. simpl.
    apply Z.eqb_neq in Hseed. rewrite Hseed. simpl. subst w2.
    rewrite <- app_assoc. simpl.
    destruct x as [r|]; [|reflexivity].
    apply Z.eqb_neq in Hx. rewrite Hx. split_ifs. }
  assert (Hloop : forall fuel r0, 0 <= r0 ->
            GetSecurityAccess_loop (S fuel) keyFunction level t r0 w
            = GetSecurityAccess_loop fuel keyFunction level t (r0 - 1) w2).
  { intros fuel r0 Hr0. cbn [GetSecurityAccess_loop].
    replace (r0 >=? 0) with true by lia. now rewrite Hbody. }
  unfold key_step_retried.
  pose proof (normalize_retry_abs retry) as Habs.
  assert (Hcall : GetSecurityAccess w keyFunction level t retry
                  = GetSecurityAccess_loop (S (Z.to_nat (Z.abs retry)))
                      keyFunction level t (Z.abs retry - 1) w2).
  { unfold GetSecurityAccess. rewrite (odd_level_mod _ Hodd), Habs.
    apply Hloop. lia. }
  destruct (Z.eqb_spec (Z.abs retry) 0) as [Hz|Hnz].
  - rewrite Hcall, Hz. reflexivity.
  - assert (Heq : GetSecurityAccess w keyFunction level t retry
                  = GetSecurityAccess w2 keyFunction level t
                      (Z.abs retry - 1)).
    { rewrite Hcall. unfold GetSecurityAccess.
      rewrite (odd_level_mod _ Hodd), normalize_retry_abs.
      replace (Z.abs (Z.abs retry - 1)) with (Z.abs retry - 1) by lia.
      replace (S (Z.to_nat (Z.abs retry - 1))) with (Z.to_nat (Z.abs retry))
        by lia.
      reflexivity. }
    split; [exact Heq|]. rewrite Heq.
    apply GetSecurityAccess_opens_with_seed. exact Hodd.
Qed.

(** C8.  After a seed request answered with service code 0x67 and a seed
    that is not zero, the key [keyFunction seed] is sent at [level + 1].
    A key response with service code 0x67 makes the call return [True].
    A negative response with return code 0x35 (invalid key), any other
    response and a timeout all end the attempt the same way: the attempt's
    retry is spent, and either the budget is used up and the call returns
    [False], or the call goes on as a new call with one retry less on what
    the ECU answers next, opening with a new seed request; the key of the old
    seed is not sent again. *)
Theorem key_step_outcomes
    (w : World) (keyFunction : Z -> Z) (level : Z) (t : option Z) (retry : Z)
    (seedr : Response) (x : option Response) (rest : list (option Response)) :
  Z.odd level = true ->
  inbox w = Some seedr :: x :: rest ->
  service seedr = 0x67 ->
  securitySeed seedr <> 0 ->
  let w2 :=
    {| inbox := rest;
       trace := trace w ++
                [Sr1 (GMLAN_SA level None) t;
                 Sr1 (GMLAN_SA (level + 1)
                        (Some (keyFunction (securitySeed seedr)))) t] |} in
  (forall r, x = Some r -> service r = 0x67 ->
     GetSecurityAccess w keyFunction level t retry = Done true w2)
  /\ (forall r, x = Some r -> service r = 0x7F -> returnCode r = 0x35 ->
     key_step_retried w w2 keyFunction level t retry)
  /\ (forall r, x = Some r -> service r <> 0x67 ->
     key_step_retried w w2 keyFunction level t retry)
  /\ (x = None -> key_step_retried w w2 keyFunction level t retry).
Proof.
  intros Hodd Hin Hs Hseed w2. repeat apply conj.
  - intros r -> Hr. unfold GetSecurityAccess.
    rewrite (odd_level_mod _ Hodd). cbn [GetSecurityAccess_loop].
    replace (normalize_retry retry >=? 0) with true
      by (pose proof (normalize_retry_nonneg retry); lia).
    unfold GetSecurityAccess_body, sr1. rewrite Hin, Hs. simpl.
    apply Z.eqb_neq in Hseed. rewrite Hseed. simpl. rewrite Hr. simpl.
    subst w2. rewrite <- app_assoc. reflexivity.
  - intros r -> Hr _.
    apply (GetSecurityAccess_key_step_retried w keyFunction level t retry
             seedr (Some r) rest Hodd Hin Hs Hseed).
    simpl. rewrite Hr. discriminate.
  - intros r -> Hr.
    now apply (GetSecurityAccess_key_step_retried w keyFunction level t retry
                 seedr (Some r) rest Hodd Hin Hs Hseed).
  - intros ->.
    now apply (GetSecurityAccess_key_step_retried w keyFunction level t retry
                 seedr None rest Hodd Hin Hs Hseed).
Qed.

(** ** Address and size checks *)

Lemma pow_256 scheme : 0 <= scheme -> 2 ^ (8 * scheme) = 256 ^ scheme.
Proof. intros H. rewrite Z.pow_mul_r by lia. reflexivity. Qed.

Lemma invalid_address_true scheme addr :
  0 <= scheme -> addr < 0 \/ 256 ^ scheme <= addr ->
  invalid_address scheme addr = true.
Proof.
  intros Hs H. unfold invalid_address. rewrite pow_256 by exact Hs.
  apply orb_true_iff. destruct H; [left|right].
  - now apply Z.ltb_lt.
  - rewrite Z.geb_leb. now apply Z.leb_le.
Qed.

Lemma invalid_address_false scheme addr :
  0 <= scheme -> 0 <= addr < 256 ^ scheme ->
  invalid_address scheme addr = false.
Proof.
  intros Hs H. unfold invalid_address. rewrite pow_256 by exact Hs.
  apply orb_false_iff. split.
  - now apply Z.ltb_ge.
  - rewrite Z.geb_leb. now apply Z.leb_gt.
Qed.

Lemma effective_maxmsglen_le scheme maxmsglen :
  effective_maxmsglen scheme maxmsglen <= 4093 - scheme.
Proof.
  unfold effective_maxmsglen. destruct maxmsglen as [m|]; [|lia].
  destruct (Z.leb_spec m 0); cbn [orb]; [lia|].
  destruct (Z.gtb_spec m (4093 - scheme)); lia.
Qed.

Lemma effective_maxmsglen_pos scheme maxmsglen :
  scheme < 4093 -> 0 < effective_maxmsglen scheme maxmsglen.
Proof.
  intros Hs. unfold effective_maxmsglen. destruct maxmsglen as [m|]; [|lia].
  destruct (Z.leb_spec m 0); cbn [orb]; [lia|].
  destruct (Z.gtb_spec m (4093 - scheme)); lia.
Qed.

Lemma effective_maxmsglen_clamped scheme maxmsglen :
  match maxmsglen with
  | None => True
  | Some m => m <= 0 \/ 4093 - scheme < m
  end ->
  effective_maxmsglen scheme maxmsglen = 4093 - scheme.
Proof.
  unfold effective_maxmsglen. destruct maxmsglen as [m|]; [|reflexivity].
  intros H. destruct (Z.leb_spec m 0); cbn [orb]; [reflexivity|].
  destruct (Z.gtb_spec m (4093 - scheme)); [reflexivity|lia].
Qed.

(** C7.  [ReadMemoryByAddress] called with an address outside
    [0, 256^scheme) or with a length above [4094 - scheme] returns [None] at
    once, whatever the retry budget: it raises a warning, sends nothing and
    reads no answer. *)
Theorem read_rejects_bad_address_or_length
    (scheme : Z) (w : World) (addr length : Z) (t : option Z) (retry : Z) :
  0 <= scheme ->
  addr < 0 \/ 256 ^ scheme <= addr \/ 4094 - scheme < length ->
  exists k,
    ReadMemoryByAddress scheme w addr length t retry
    = Done None {| inbox := inbox w; trace := trace w ++ [Warning k] |}
    /\ messages_sent (trace w ++ [Warning k]) = messages_sent (trace w).
Proof.
  intros Hs H. unfold ReadMemoryByAddress.
  assert (Hcount : forall k, messages_sent (trace w ++ [Warning k])
                             = messages_sent (trace w)).
  { intros k. unfold messages_sent. rewrite count_app. unfold count at 2.
    simpl. lia. }
  destruct (invalid_address scheme addr) eqn:Hinv.
  - exists (InvalidAddress addr scheme). split; [reflexivity|apply Hcount].
  - assert (Hl : 4094 - scheme < length).
    { destruct H as [H|[H|H]]; try exact H;
        rewrite invalid_address_true in Hinv by auto; discriminate. }
    replace (length >? 4094 - scheme) with true by lia.
    rewrite orb_true_r.
    exists (InvalidLength length scheme). split; [reflexivity|apply Hcount].
Qed.

(** C9.  With a valid address and an empty payload, [TransferData] returns
    [True] without entering the chunk loop: the world is untouched, nothing
    is sent. *)
Theorem empty_payload_sends_nothing
    (scheme : Z) (w : World) (addr : Z) (maxmsglen : option Z)
    (t : option Z) (retry : Z) :
  0 <= scheme < 4093 ->
  0 <= addr < 256 ^ scheme ->
  TransferData scheme w addr [] maxmsglen t retry = Done true w.
Proof.
  intros Hs Ha. unfold TransferData.
  rewrite invalid_address_false by (auto; lia).
  pose proof (effective_maxmsglen_pos scheme maxmsglen (proj2 Hs)) as Hpos.
  unfold py_range, len. simpl List.length.
  replace (effective_maxmsglen scheme maxmsglen =? 0) with false by lia.
  replace (0 <? effective_maxmsglen scheme maxmsglen) with true by lia.
  reflexivity.
Qed.

(** ** Chunks *)

Lemma py_slice_nat {A : Type} (l : list A) (i m : Z) :
  0 <= i -> 0 <= m ->
  py_slice l i (Some (i + m)) = firstn (Z.to_nat m) (skipn (Z.to_nat i) l).
Proof.
  intros Hi Hm. unfold py_slice, py_clip.
  replace (i <? 0) with false by lia. replace (i + m <? 0) with false by lia.
  set (n := Z.of_nat (length l)).
  destruct (Z.le_gt_cases i n) as [Hle|Hgt].
  - replace (Z.min i n) with i by lia.
    destruct (Z.le_gt_cases (i + m) n) as [Hle2|Hgt2].
    + replace (Z.min (i + m) n) with (i + m) by lia.
      now replace (i + m - i) with m by lia.
    + replace (Z.min (i + m) n) with n by lia.
      rewrite !firstn_all2; [reflexivity| |]; rewrite length_skipn; lia.
  - rewrite !skipn_all2 by lia. now rewrite !firstn_nil.
Qed.

Lemma len_py_slice_from {A : Type} (l : list A) (i : Z) :
  0 <= i -> len (py_slice l i None) = len l - Z.min i (len l).
Proof.
  intros Hi. unfold py_slice, py_clip, len.
  replace (i <? 0) with false by lia.
  rewrite length_firstn, length_skipn. lia.
Qed.

Lemma py_slice_from_nat {A : Type} (l : list A) (i : Z) :
  0 <= i -> py_slice l i None = skipn (Z.to_nat i) l.
Proof.
  intros Hi. unfold py_slice, py_clip.
  replace (i <? 0) with false by lia.
  set (n := Z.of_nat (length l)).
  destruct (Z.le_gt_cases i n) as [Hle|Hgt].
  - replace (Z.min i n) with i by lia.
    apply firstn_all2. rewrite length_skipn. lia.
  - rewrite !skipn_all2 by lia. now rewrite firstn_nil.
Qed.

(** Either branch of the source's test yields [payload[i:i + maxmsglen]]. *)
Lemma transdata_at_slice payload maxmsglen i :
  0 <= i -> 0 <= maxmsglen ->
  transdata_at payload maxmsglen i
  = py_slice payload i (Some (i + maxmsglen)).
Proof.
  intros Hi Hm. unfold transdata_at.
  destruct (Z.gtb_spec (len (py_slice payload i None)) maxmsglen) as [|Hle];
    [reflexivity|].
  rewrite len_py_slice_from in Hle by exact Hi.
  rewrite py_slice_nat, py_slice_from_nat by assumption.
  symmetry. apply firstn_all2. rewrite length_skipn. unfold len in Hle. lia.
Qed.

Lemma len_transdata_at payload maxmsglen i :
  0 <= i -> 0 <= maxmsglen ->
  len (transdata_at payload maxmsglen i) <= maxmsglen.
Proof.
  intros Hi Hm. rewrite transdata_at_slice, py_slice_nat by assumption.
  unfold len. rewrite length_firstn. lia.
Qed.

Lemma len_transdata_at_exact payload maxmsglen i :
  0 <= i <= len payload -> 0 <= maxmsglen ->
  len (transdata_at payload maxmsglen i)
  = Z.min maxmsglen (len payload - i).
Proof.
  intros Hi Hm. rewrite transdata_at_slice, py_slice_nat by lia.
  unfold len in *. rewrite length_firstn, length_skipn. lia.
Qed.

(** Cutting a list every [m] elements and gluing the pieces gives it back. *)
Lemma concat_pieces {A : Type} (m : nat) :
  (0 < m)%nat ->
  forall (n : nat) (l : list A),
    (length l <= n * m)%nat ->
    concat (map (fun k => firstn m (skipn (k * m) l)) (seq 0 n)) = l.
Proof.
  intros Hm. induction n as [|n IH]; intros l Hl.
  - destruct l; [reflexivity|simpl in Hl; lia].
  - rewrite <- cons_seq, <- seq_shift. cbn [map concat]. rewrite map_map.
    change (0 * m)%nat with 0%nat. cbn [skipn].
    transitivity (firstn m l ++ skipn m l); [|apply firstn_skipn]. f_equal.
    rewrite <- (IH (skipn m l))
      by (rewrite length_skipn; simpl in Hl; lia).
    f_equal. apply map_ext. intros k. rewrite skipn_skipn.
    now replace (S k * m)%nat with (k * m + m)%nat by lia.
Qed.

(** The offsets of [range(0, L, m)] are the multiples of [m] below [L], and
    enough of them to cover [L]. *)
Lemma py_range_multiples L m offsets :
  0 <= L -> 0 < m ->
  py_range 0 L m = Some offsets ->
  offsets = map (fun k => Z.of_nat k * m) (seq 0 (length offsets))
  /\ L <= Z.of_nat (length offsets) * m.
Proof.
  intros HL Hm. unfold py_range.
  replace (m =? 0) with false by lia. replace (0 <? m) with true by lia.
  intros [= <-]. rewrite length_map, length_seq. split; [reflexivity|].
  destruct (Z.ltb_spec 0 L) as [Hpos|]; [|simpl; lia].
  replace (L - 0 - 1) with (L - 1) by lia.
  pose proof (Z.div_mod (L - 1) m ltac:(lia)) as Hdm.
  pose proof (Z.mod_pos_bound (L - 1) m Hm) as Hb.
  pose proof (Z.div_pos (L - 1) m ltac:(lia) Hm) as Hq.
  rewrite Z2Nat.id by lia. nia.
Qed.

Lemma only_request_sent_in pkt t delta :
  only_request pkt t delta -> (1 <= count is_sent delta)%nat ->
  In (Sr1 pkt t) delta.
Proof.
  induction 1 as [|e delta He _ IH]; intros Hc.
  - unfold count in Hc. simpl in Hc. lia.
  - destruct He as [-> | ->]; [now left|].
    right. apply IH. rewrite count_cons in Hc. exact Hc.
Qed.

(** A chunk accepted at once: one request, then on to the next offset. *)
Lemma TransferData_while_accepted fuel addr payload maxmsglen t i retry
    r inb tr :
  service r = 0x76 ->
  TransferData_while (S fuel) addr payload maxmsglen t i retry
    {| inbox := Some r :: inb; trace := tr |}
  = Done true
      {| inbox := inb;
         trace := tr ++ [Sr1 (GMLAN_TD (addr + i)
                                (transdata_at payload maxmsglen i)) t] |}.
Proof.
  intros Hr. cbn [TransferData_while].
  pose proof (TransferData_absorbs addr payload maxmsglen t i [] (Some r)
                inb tr retry (Forall_nil _)) as H.
  simpl in H. rewrite H.
  - rewrite Hr. reflexivity.
  - unfold is_pending. rewrite Hr. reflexivity.
Qed.

(** An ECU that accepts every chunk at once: the requests sent are the
    chunks of the offsets, one each, in order. *)
Lemma TransferData_for_accepted addr payload maxmsglen t retry :
  forall offsets rs rest tr,
    length rs = length offsets ->
    Forall (fun r => service r = 0x76) rs ->
    TransferData_for offsets addr payload maxmsglen t retry
      {| inbox := map Some rs ++ rest; trace := tr |}
    = Done true
        {| inbox := rest;
           trace := tr ++ map (fun i => Sr1 (GMLAN_TD (addr + i)
                                  (transdata_at payload maxmsglen i)) t)
                            offsets |}.
Proof.
  induction offsets as [|i offsets IH]; intros rs rest tr Hlen Hrs.
  - destruct rs; [|discriminate]. simpl. now rewrite app_nil_r.
  - destruct rs as [|r rs]; [discriminate|].
    inversion Hrs as [|? ? Hr Hrs']; subst.
    cbn [TransferData_for map app].
    rewrite TransferData_while_accepted by exact Hr.
    rewrite IH by (simpl in Hlen; auto; lia).
    rewrite <- app_assoc. reflexivity.
Qed.

(** An upload that returns [True] has sent the chunk of every offset. *)
Lemma TransferData_for_success addr payload maxmsglen t retry :
  0 <= retry ->
  forall offsets w w',
    TransferData_for offsets addr payload maxmsglen t retry w = Done true w' ->
    exists delta,
      trace w' = trace w ++ delta
      /\ forall i, In i offsets ->
           In (Sr1 (GMLAN_TD (addr + i) (transdata_at payload maxmsglen i)) t)
              delta.
Proof.
  intros Hr. induction offsets as [|i offsets IH]; intros w w' Hrun.
  - simpl in Hrun. injection Hrun as <-. exists []. rewrite app_nil_r.
    split; [reflexivity|]. intros i [].
  - cbn [TransferData_for] in Hrun.
    destruct (TransferData_while_attempts addr payload maxmsglen t i
                (S (Z.to_nat retry)) retry w Hr)
      as (b1 & inb1 & d1 & Hrun1 & Hd1 & Hc1 & _); [lia|].
    rewrite Hrun1 in Hrun. destruct b1; [|discriminate].
    destruct (IH _ _ Hrun) as (d2 & Htr & Hin). simpl in Htr.
    exists (d1 ++ d2). rewrite Htr, app_assoc. split; [reflexivity|].
    intros j [<-|Hj]; apply in_or_app.
    + left. apply only_request_sent_in; [exact Hd1|lia].
    + right. now apply Hin.
Qed.

(** C3.  For a valid address, [TransferData] cuts the payload at the offsets
    [0, m, 2m, ..] below its length, [m] being the chunk size in force: the
    chunk at offset [i] is [payload[i:i + m]], the chunks glued in order are
    the payload, and against an ECU that accepts each request the call
    returns [True] having sent exactly one request per chunk, in order, the
    one for offset [i] with starting address [addr + i].  Whatever the ECU
    answers, every data-transfer request of the call is one of these chunks
    at its address.  With [scheme] 1 and
    no [maxmsglen], [m] is 4092 and a payload of 10000 bytes goes out as the
    three chunks at offsets 0, 4092 and 8184. *)
Theorem chunks_are_sent_in_order
    (scheme addr : Z) (payload : list byte) (maxmsglen t : option Z)
    (retry : Z) :
  0 <= scheme < 4093 ->
  0 <= addr < 256 ^ scheme ->
  let m := effective_maxmsglen scheme maxmsglen in
  exists offsets,
    py_range 0 (len payload) m = Some offsets
    /\ offsets = map (fun k => Z.of_nat k * m) (seq 0 (length offsets))
    /\ Forall (fun i => 0 <= i < len payload) offsets
    /\ concat (map (fun i => py_slice payload i (Some (i + m))) offsets)
       = payload
    /\ (forall rs rest tr,
          length rs = length offsets ->
          Forall (fun r => service r = 0x76) rs ->
          TransferData scheme {| inbox := map Some rs ++ rest; trace := tr |}
            addr payload maxmsglen t retry
          = Done true
              {| inbox := rest;
                 trace := tr ++ map (fun i =>
                            Sr1 (GMLAN_TD (addr + i)
                                   (py_slice payload i (Some (i + m)))) t)
                            offsets |})
    /\ (forall w, exists b inb' delta,
          TransferData scheme w addr payload maxmsglen t retry
          = Done b {| inbox := inb'; trace := trace w ++ delta |}
          /\ Forall (fun c => exists i, In i offsets
                        /\ c = (addr + i, py_slice payload i (Some (i + m))))
               (chunks_sent delta))
    /\ (scheme = 1 -> maxmsglen = None -> len payload = 10000 ->
        m = 4092 /\ offsets = [0; 4092; 8184]).
Proof.
  intros Hs Ha m.
  pose proof (effective_maxmsglen_pos scheme maxmsglen (proj2 Hs)) as Hm.
  fold m in Hm.
  assert (Hex : exists offsets, py_range 0 (len payload) m = Some offsets).
  { unfold py_range. replace (m =? 0) with false by lia. eauto. }
  destruct Hex as (offsets & Hrange). exists offsets.
  destruct (py_range_offsets _ _ _ Hrange (len_nonneg payload))
    as (Hnd & Hin).
  destruct (py_range_multiples _ _ _ (len_nonneg payload) Hm Hrange)
    as (Hmul & Hcover).
  split; [exact Hrange|]. split; [exact Hmul|].
  split; [|split; [|split; [|split]]].
  - apply Forall_forall. intros i Hi. now apply Hin.
  - remember (length offsets) as n eqn:Hn. rewrite Hmul, map_map.
    etransitivity;
      [|apply (concat_pieces (Z.to_nat m) ltac:(lia) n payload);
        unfold len in Hcover; nia].
    f_equal. apply map_ext. intros k. rewrite py_slice_nat by nia.
    now replace (Z.to_nat (Z.of_nat k * m)) with (k * Z.to_nat m)%nat by nia.
  - intros rs rest tr Hlen Hrs. unfold TransferData.
    rewrite invalid_address_false by (auto; lia). fold m. rewrite Hrange.
    rewrite TransferData_for_accepted by assumption.
    do 3 f_equal. apply map_ext_in. intros i Hi.
    rewrite transdata_at_slice; [reflexivity| |lia].
    now apply Hin.
  - intros w. unfold TransferData.
    rewrite invalid_address_false by (auto; lia). fold m. rewrite Hrange.
    destruct (TransferData_for_attempts addr payload m t
                (normalize_retry retry) (normalize_retry_nonneg retry)
                offsets w Hnd)
      as (b & inb' & delta & Hrun & Hch & _).
    exists b, inb', delta. split; [exact Hrun|].
    eapply Forall_impl; [|exact Hch].
    intros c (i & Hi & ->). exists i. split; [exact Hi|].
    rewrite transdata_at_slice; [reflexivity| |lia].
    now apply Hin.
  - intros -> -> HL. split; [reflexivity|].
    rewrite HL in Hrange. vm_compute in Hrange. congruence.
Qed.

(** What [TransferData] sends for a valid address, [m] being the chunk size
    in force: the offsets are the multiples of [m] below the length of the
    payload; whatever the ECU answers, each request sent is the slice
    [payload[i:i + m]] of one of them at [addr + i], with
    [min(m, len(payload) - i)] bytes; against an ECU that accepts each
    request, one request per offset is sent, in order. *)
Lemma TransferData_partition scheme addr payload maxmsglen t retry :
  0 <= scheme < 4093 ->
  0 <= addr < 256 ^ scheme ->
  let m := effective_maxmsglen scheme maxmsglen in
  exists offsets,
    py_range 0 (len payload) m = Some offsets
    /\ offsets = map (fun k => Z.of_nat k * m) (seq 0 (length offsets))
    /\ Forall (fun i => 0 <= i < len payload) offsets
    /\ (forall w, exists b inb' delta,
          TransferData scheme w addr payload maxmsglen t retry
          = Done b {| inbox := inb'; trace := trace w ++ delta |}
          /\ Forall (fun c => exists i,
                       In i offsets
                       /\ c = (addr + i, py_slice payload i (Some (i + m)))
                       /\ len (snd c) = Z.min m (len payload - i))
               (chunks_sent delta))
    /\ (forall rs rest tr,
          length rs = length offsets ->
          Forall (fun r => service r = 0x76) rs ->
          TransferData scheme {| inbox := map Some rs ++ rest; trace := tr |}
            addr payload maxmsglen t retry
          = Done true
              {| inbox := rest;
                 trace := tr ++ map (fun i =>
                            Sr1 (GMLAN_TD (addr + i)
                                   (py_slice payload i (Some (i + m)))) t)
                            offsets |}).
Proof.
  intros Hs Ha m.
  pose proof (effective_maxmsglen_pos scheme maxmsglen (proj2 Hs)) as Hm.
  fold m in Hm.
  assert (Hex : exists offsets, py_range 0 (len payload) m = Some offsets).
  { unfold py_range. replace (m =? 0) with false by lia. eauto. }
  destruct Hex as (offsets & Hrange). exists offsets.
  destruct (py_range_offsets _ _ _ Hrange (len_nonneg payload))
    as (Hnd & Hin).
  destruct (py_range_multiples _ _ _ (len_nonneg payload) Hm Hrange)
    as (Hmul & _).
  split; [exact Hrange|]. split; [exact Hmul|]. split; [|split].
  - apply Forall_forall. intros i Hi. now apply Hin.
  - intros w. unfold TransferData.
    rewrite invalid_address_false by (auto; lia). fold m. rewrite Hrange.
    destruct (TransferData_for_attempts addr payload m t
                (normalize_retry retry) (normalize_retry_nonneg retry)
                offsets w Hnd)
      as (b & inb' & delta & Hrun & Hch & _).
    exists b, inb', delta. split; [exact Hrun|].
    eapply Forall_impl; [|exact Hch].
    intros c (i & Hi & ->). destruct (Hin i Hi) as (_ & Hi0).
    exists i. cbn [snd]. split; [exact Hi|].
    rewrite len_transdata_at_exact by lia.
    rewrite transdata_at_slice by lia. auto.
  - intros rs rest tr Hlen Hrs. unfold TransferData.
    rewrite invalid_address_false by (auto; lia). fold m. rewrite Hrange.
    rewrite TransferData_for_accepted by assumption.
    do 3 f_equal. apply map_ext_in. intros i Hi.
    rewrite transdata_at_slice; [reflexivity| |lia].
    now apply Hin.
Qed.

(** C4.  A [maxmsglen] that is [None], not positive or above
    [4093 - scheme] is replaced by [c = 4093 - scheme], and that is the size
    [TransferData] then cuts by: the call is the call with [maxmsglen = c];
    for a valid address the offsets are the multiples of [c] below the
    length of the payload, every request sent is [payload[i:i + c]] at
    [addr + i] with [min(c, len(payload) - i)] bytes, so exactly [c] bytes
    for every chunk but the last, and against an ECU that accepts each
    request exactly these chunks are sent, one each, in order.  And whatever
    [maxmsglen] is and whatever the ECU answers, no data-transfer request of
    the call carries more than [4093 - scheme] bytes. *)
Theorem chunk_size_is_clamped
    (scheme addr : Z) (payload : list byte) (maxmsglen t : option Z)
    (retry : Z) :
  (forall w, exists inb' delta,
      final_world (TransferData scheme w addr payload maxmsglen t retry)
      = Some {| inbox := inb'; trace := trace w ++ delta |}
      /\ Forall (fun c => len (snd c) <= 4093 - scheme) (chunks_sent delta))
  /\ (match maxmsglen with
      | None => True
      | Some m => m <= 0 \/ 4093 - scheme < m
      end ->
      effective_maxmsglen scheme maxmsglen = 4093 - scheme
      /\ (forall w,
            TransferData scheme w addr payload maxmsglen t retry
            = TransferData scheme w addr payload (Some (4093 - scheme)) t
                retry)
      /\ (0 <= scheme < 4093 -> 0 <= addr < 256 ^ scheme ->
          exists offsets,
            py_range 0 (len payload) (4093 - scheme) = Some offsets
            /\ offsets = map (fun k => Z.of_nat k * (4093 - scheme))
                           (seq 0 (length offsets))
            /\ Forall (fun i => 0 <= i < len payload) offsets
            /\ (forall w, exists b inb' delta,
                  TransferData scheme w addr payload maxmsglen t retry
                  = Done b {| inbox := inb'; trace := trace w ++ delta |}
                  /\ Forall (fun c => exists i,
                               In i offsets
                               /\ c = (addr + i,
                                       py_slice payload i
                                         (Some (i + (4093 - scheme))))
                               /\ len (snd c)
                                  = Z.min (4093 - scheme) (len payload - i))
                       (chunks_sent delta))
            /\ (forall rs rest tr,
                  length rs = length offsets ->
                  Forall (fun r => service r = 0x76) rs ->
                  TransferData scheme
                    {| inbox := map Some rs ++ rest; trace := tr |}
                    addr payload maxmsglen t retry
                  = Done true
                      {| inbox := rest;
                         trace := tr ++ map (fun i =>
                                    Sr1 (GMLAN_TD (addr + i)
                                           (py_slice payload i
                                              (Some (i + (4093 - scheme)))))
                                      t)
                                    offsets |}))).
Proof.
  split.
  - intros w. unfold TransferData. destruct (invalid_address scheme addr).
    + exists (inbox w), [Warning (InvalidAddress addr scheme)].
      split; [reflexivity|constructor].
    + destruct (py_range 0 (len payload)
                  (effective_maxmsglen scheme maxmsglen))
        as [offsets|] eqn:Hrange.
      * destruct (py_range_offsets _ _ _ Hrange (len_nonneg payload))
          as (Hnd & Hin).
        destruct (TransferData_for_attempts addr payload
                    (effective_maxmsglen scheme maxmsglen) t
                    (normalize_retry retry) (normalize_retry_nonneg retry)
                    offsets w Hnd)
          as (b & inb' & delta & Hrun & Hch & _).
        exists inb', delta. rewrite Hrun. split; [reflexivity|].
        eapply Forall_impl; [|exact Hch].
        intros c (i & Hi & ->). cbn [snd].
        destruct (Hin i Hi) as (Hpos & Hi0 & _).
        pose proof (len_transdata_at payload
                      (effective_maxmsglen scheme maxmsglen) i Hi0
                      ltac:(lia)).
        pose proof (effective_maxmsglen_le scheme maxmsglen). lia.
      * exists (inbox w), []. simpl.
        split; [f_equal; apply world_eta|constructor].
  - intros Hclamp.
    pose proof (effective_maxmsglen_clamped scheme maxmsglen Hclamp) as He.
    split; [exact He|]. split.
    + intros w. unfold TransferData. rewrite He.
      replace (effective_maxmsglen scheme (Some (4093 - scheme)))
        with (4093 - scheme); [reflexivity|].
      unfold effective_maxmsglen. split_ifs.
    + intros Hs Ha.
      pose proof (TransferData_partition scheme addr payload maxmsglen t
                    retry Hs Ha) as H.
      cbv zeta in H. rewrite He in H. exact H.
Qed.

(** C10.  [TransferData] checks [addr] alone against [256^scheme].  When
    [addr] is valid and the payload has a chunk offset [i] with
    [addr + i >= 256^scheme], the call is not rejected: it sends at least
    one request whatever the ECU answers; whenever it returns [True] it has
    sent the chunk of offset [i] with starting address [addr + i], an address
    [TransferData] itself would refuse as [addr]; and it does return [True]
    against an ECU that accepts each request. *)
Theorem later_chunks_leave_the_address_range
    (scheme addr : Z) (payload : list byte) (maxmsglen t : option Z)
    (retry : Z) (offsets : list Z) (i : Z) :
  0 <= scheme < 4093 ->
  0 <= addr < 256 ^ scheme ->
  let m := effective_maxmsglen scheme maxmsglen in
  py_range 0 (len payload) m = Some offsets ->
  In i offsets ->
  256 ^ scheme <= addr + i ->
  invalid_address scheme (addr + i) = true
  /\ (forall w, exists b inb' delta,
        TransferData scheme w addr payload maxmsglen t retry
        = Done b {| inbox := inb'; trace := trace w ++ delta |}
        /\ (1 <= messages_sent delta)%nat)
  /\ (forall w w',
        TransferData scheme w addr payload maxmsglen t retry = Done true w' ->
        exists delta,
          trace w' = trace w ++ delta
          /\ In (Sr1 (GMLAN_TD (addr + i) (transdata_at payload m i)) t)
                delta)
  /\ (forall rs rest tr,
        length rs = length offsets ->
        Forall (fun r => service r = 0x76) rs ->
        exists w',
          TransferData scheme {| inbox := map Some rs ++ rest; trace := tr |}
            addr payload maxmsglen t retry
          = Done true w').
Proof.
  intros Hs Ha m Hrange Hi Hout.
  assert (Hvalid : invalid_address scheme addr = false)
    by (apply invalid_address_false; auto; lia).
  destruct (py_range_offsets _ _ _ Hrange (len_nonneg payload))
    as (Hnd & _).
  split; [|split; [|split]].
  - apply invalid_address_true; [lia|now right].
  - intros w. unfold TransferData. rewrite Hvalid. fold m. rewrite Hrange.
    destruct (TransferData_for_attempts addr payload m t
                (normalize_retry retry) (normalize_retry_nonneg retry)
                offsets w Hnd)
      as (b & inb' & delta & Hrun & _ & _ & _ & _ & Hsent).
    exists b, inb', delta. split; [exact Hrun|].
    apply Hsent. intros ->. destruct Hi.
  - intros w w'. unfold TransferData. rewrite Hvalid. fold m.
    rewrite Hrange. intros Hrun.
    destruct (TransferData_for_success addr payload m t
                (normalize_retry retry) (normalize_retry_nonneg retry)
                offsets w w' Hrun) as (delta & Htr & Hall).
    exists delta. split; [exact Htr|]. now apply Hall.
  - intros rs rest tr Hlen Hrs. unfold TransferData. rewrite Hvalid. fold m.
    rewrite Hrange, TransferData_for_accepted by assumption. eauto.
Qed.

(** * The properties on concrete runs *)

(** Three pending answers, then the positive one: [RequestDownload] succeeds
    with a budget of zero. *)
Lemma pending_answers_keep_retry_counter_witness :
  Forall (fun p => is_pending 0x34 p = true)
    [negative 0x34 0x78; negative 0x34 0x78; negative 0x34 0x78]
  /\ RequestDownload
       (fresh [Some (negative 0x34 0x78); Some (negative 0x34 0x78);
               Some (negative 0x34 0x78); Some (positive 0x74)])
       16 None 0
     = Done true
         {| inbox := [];
            trace := [Sr1 (GMLAN_RD 16) None; Sniff (GMLAN_RD 16) None;
                      Sniff (GMLAN_RD 16) None; Sniff (GMLAN_RD 16) None] |}.
Proof.
  assert (H : Forall (fun p => is_pending 0x34 p = true)
                [negative 0x34 0x78; negative 0x34 0x78; negative 0x34 0x78])
    by (repeat constructor).
  split; [exact H|].
  exact (proj1 (proj2 (proj2 (proj2 pending_answers_keep_retry_counter)))
           [negative 0x34 0x78; negative 0x34 0x78; negative 0x34 0x78]
           (positive 0x74) [] [] 16 None 0 H eq_refl).
Defined.

(** 10000 bytes with [scheme] 1: chunks at 0, 4092 and 8184, sent to
    [addr], [addr + 4092] and [addr + 8184]. *)
Lemma chunks_are_sent_in_order_witness :
  (0 <= 1 < 4093) /\ (0 <= 7 < 256 ^ 1)
  /\ exists w',
      TransferData 1
        (fresh [Some (positive 0x76); Some (positive 0x76);
                Some (positive 0x76)])
        7 (repeat "000"%byte (Z.to_nat 10000)) None None 0
      = Done true w'
      /\ map (fun c => (fst c, len (snd c))) (chunks_sent (trace w'))
         = [(7, 4092); (4099, 4092); (8191, 1816)].
Proof.
  assert (Hs : 0 <= 1 < 4093) by lia.
  assert (Ha : 0 <= 7 < 256 ^ 1) by (simpl; lia).
  split; [exact Hs|]. split; [exact Ha|].
  destruct (chunks_are_sent_in_order 1 7 (repeat "000"%byte (Z.to_nat 10000))
              None None 0 Hs Ha)
    as (offsets & _ & _ & _ & _ & Hrun & _ & Hd).
  destruct (Hd eq_refl eq_refl ltac:(vm_compute; reflexivity)) as (_ & ->).
  eexists. split.
  - apply (Hrun [positive 0x76; positive 0x76; positive 0x76] [] []);
      [reflexivity|repeat constructor].
  - vm_compute. reflexivity.
Defined.

(** 5000 bytes with [scheme] 2 and a [maxmsglen] of 5000: chunks of 4091
    and 909 bytes. *)
Lemma chunk_size_is_clamped_witness :
  (5000 <= 0 \/ 4093 - 2 < 5000) /\ (0 <= 2 < 4093) /\ (0 <= 16 < 256 ^ 2)
  /\ exists w',
      TransferData 2 (fresh [Some (positive 0x76); Some (positive 0x76)])
        16 (repeat "000"%byte (Z.to_nat 5000)) (Some 5000) None 0
      = Done true w'
      /\ map (fun c => (fst c, len (snd c))) (chunks_sent (trace w'))
         = [(16, 4091); (4107, 909)].
Proof.
  assert (H : 5000 <= 0 \/ 4093 - 2 < 5000) by (right; lia).
  assert (Hs : 0 <= 2 < 4093) by lia.
  assert (Ha : 0 <= 16 < 256 ^ 2) by (simpl; lia).
  split; [exact H|]. split; [exact Hs|]. split; [exact Ha|].
  destruct (proj2 (chunk_size_is_clamped 2 16
                     (repeat "000"%byte (Z.to_nat 5000)) (Some 5000) None 0)
              H)
    as (_ & _ & Hexact).
  destruct (Hexact Hs Ha) as (offsets & Hrange & _ & _ & _ & Hrun).
  assert (Hoff : offsets = [0; 4091]).
  { vm_compute in Hrange. congruence. }
  subst offsets. eexists. split.
  - apply (Hrun [positive 0x76; positive 0x76] [] []);
      [reflexivity|repeat constructor].
  - vm_compute. reflexivity.
Defined.

Lemma even_level_is_rejected_without_traffic_witness :
  Z.even 2 = true
  /\ GetSecurityAccess (fresh [Some (seed_response 0x1234)])
       (fun seed => seed + 1) 2 None 3
     = Done false {| inbox := [Some (seed_response 0x1234)];
                     trace := [Warning OddLevelExpected] |}.
Proof.
  split; [reflexivity|].
  exact (proj1 (even_level_is_rejected_without_traffic
                  (fresh [Some (seed_response 0x1234)])
                  (fun seed => seed + 1) 2 None 3 eq_refl)).
Defined.

Lemma zero_seed_returns_success_without_key_witness :
  Z.odd 1 = true
  /\ GetSecurityAccess (fresh [Some (seed_response 0)])
       (fun seed => seed + 1) 1 None 0
     = Done true {| inbox := []; trace := [Sr1 (GMLAN_SA 1 None) None] |}.
Proof.
  split; [reflexivity|].
  exact (proj1 (zero_seed_returns_success_without_key
                  (fresh [Some (seed_response 0)]) (fun seed => seed + 1)
                  1 None 0 (seed_response 0) [] eq_refl eq_refl eq_refl
                  eq_refl)).
Defined.

(** A length of 4093 with [scheme] 2, one above the ceiling 4092. *)
Lemma read_rejects_bad_address_or_length_witness :
  (0 <= 2) /\ (16 < 0 \/ 256 ^ 2 <= 16 \/ 4094 - 2 < 4093)
  /\ exists k,
      ReadMemoryByAddress 2 (fresh [Some (positive 0x63)]) 16 4093 None 5
      = Done None {| inbox := [Some (positive 0x63)];
                     trace := [Warning k] |}.
Proof.
  assert (Hs : 0 <= 2) by lia.
  assert (H : 16 < 0 \/ 256 ^ 2 <= 16 \/ 4094 - 2 < 4093)
    by (right; right; lia).
  split; [exact Hs|]. split; [exact H|].
  destruct (read_rejects_bad_address_or_length 2
              (fresh [Some (positive 0x63)]) 16 4093 None 5 Hs H)
    as (k & Hk & _).
  exists k. exact Hk.
Defined.

(** An invalid key with one retry left: the call asks for a new seed. *)
Lemma key_step_outcomes_witness :
  Z.odd 1 = true /\ securitySeed (seed_response 0x1234) <> 0
  /\ key_step_retried
       (fresh [Some (seed_response 0x1234); Some (negative 0x27 0x35);
               Some (seed_response 0)])
       {| inbox := [Some (seed_response 0)];
          trace := [Sr1 (GMLAN_SA 1 None) None;
                    Sr1 (GMLAN_SA 2 (Some 0x1235)) None] |}
       (fun seed => seed + 1) 1 None 1.
Proof.
  assert (Hseed : securitySeed (seed_response 0x1234) <> 0)
    by (simpl; lia).
  split; [reflexivity|]. split; [exact Hseed|].
  exact (proj1 (proj2 (key_step_outcomes
                         (fresh [Some (seed_response 0x1234);
                                 Some (negative 0x27 0x35);
                                 Some (seed_response 0)])
                         (fun seed => seed + 1) 1 None 1
                         (seed_response 0x1234)
                         (Some (negative 0x27 0x35))
                         [Some (seed_response 0)]
                         eq_refl eq_refl eq_refl Hseed))
           (negative 0x27 0x35) eq_refl eq_refl eq_refl).
Defined.

Lemma empty_payload_sends_nothing_witness :
  (0 <= 2 < 4093) /\ (0 <= 16 < 256 ^ 2)
  /\ TransferData 2 (fresh [Some (positive 0x76)]) 16 [] None None 3
     = Done true (fresh [Some (positive 0x76)]).
Proof.
  assert (Hs : 0 <= 2 < 4093) by lia.
  assert (Ha : 0 <= 16 < 256 ^ 2) by (simpl; lia).
  split; [exact Hs|]. split; [exact Ha|].
  exact (empty_payload_sends_nothing 2 (fresh [Some (positive 0x76)]) 16
           None None 3 Hs Ha).
Defined.

(** 100 bytes from address 200 with [scheme] 1 in chunks of 40: the third
    chunk goes to 280, past the last address 255. *)
Lemma later_chunks_leave_the_address_range_witness :
  (0 <= 1 < 4093) /\ (0 <= 200 < 256 ^ 1)
  /\ py_range 0 (len (repeat "000"%byte 100)) (effective_maxmsglen 1 (Some 40))
     = Some [0; 40; 80]
  /\ In 80 [0; 40; 80]
  /\ 256 ^ 1 <= 200 + 80
  /\ invalid_address 1 (200 + 80) = true
  /\ exists w',
      TransferData 1
        (fresh [Some (positive 0x76); Some (positive 0x76);
                Some (positive 0x76)])
        200 (repeat "000"%byte 100) (Some 40) None 0
      = Done true w'
      /\ In (Sr1 (GMLAN_TD 280 (repeat "000"%byte 20)) None) (trace w').
Proof.
  assert (Hs : 0 <= 1 < 4093) by lia.
  assert (Ha : 0 <= 200 < 256 ^ 1) by (simpl; lia).
  assert (Hrange : py_range 0 (len (repeat "000"%byte 100))
                     (effective_maxmsglen 1 (Some 40)) = Some [0; 40; 80])
    by reflexivity.
  assert (Hin : In 80 [0; 40; 80]) by (simpl; auto).
  assert (Hout : 256 ^ 1 <= 200 + 80) by (simpl; lia).
  destruct (later_chunks_leave_the_address_range 1 200
              (repeat "000"%byte 100) (Some 40) None 0 [0; 40; 80] 80
              Hs Ha Hrange Hin Hout)
    as (Hinv & _ & Hsucc & Hacc).
  repeat (split; [assumption|]).
  destruct (Hacc [positive 0x76; positive 0x76; positive 0x76] [] []
              eq_refl ltac:(repeat constructor)) as (w' & Hrun).
  exists w'. split; [exact Hrun|].
  destruct (Hsucc _ _ Hrun) as (delta & Htr & Hd).
  rewrite Htr. simpl. exact Hd.
Defined.

(** * Further properties *)

(** ** The handshake of [InitDiagnostics] *)

Lemma InitDiagnostics_loop_S fuel bs t retry w :
  InitDiagnostics_loop (S fuel) bs t retry w
  = if retry >=? 0 then
      match InitDiagnostics_body bs t w with
      | (Return b, w') => Done b w'
      | (_, w') => InitDiagnostics_loop fuel bs t (retry - 1) w'
      end
    else Done false w.
Proof. reflexivity. Qed.

(** An attempt that returns ends the call with its result. *)
Lemma InitDiagnostics_returns w bs t retry b w1 :
  InitDiagnostics_body bs t w = (Return b, w1) ->
  InitDiagnostics w bs t retry = Done b w1.
Proof.
  intros Hbody. unfold InitDiagnostics. rewrite InitDiagnostics_loop_S.
  pose proof (normalize_retry_nonneg retry).
  replace (normalize_retry retry >=? 0) with true by lia.
  now rewrite Hbody.
Qed.

(** An attempt that asks for another pass: the call is out of budget, or goes
    on as a call with one retry less. *)
Lemma InitDiagnostics_continues w bs t retry w1 :
  InitDiagnostics_body bs t w = (Continue, w1) ->
  InitDiagnostics w bs t retry
  = if Z.abs retry =? 0 then Done false w1
    else InitDiagnostics w1 bs t (Z.abs retry - 1).
Proof.
  intros Hbody. unfold InitDiagnostics.
  rewrite !normalize_retry_abs, InitDiagnostics_loop_S.
  replace (Z.abs retry >=? 0) with true by lia. rewrite Hbody.
  destruct (Z.eqb_spec (Z.abs retry) 0) as [Hz|Hnz].
  - rewrite Hz. reflexivity.
  - replace (Z.abs (Z.abs retry - 1)) with (Z.abs retry - 1) by lia.
    replace (S (Z.to_nat (Z.abs retry - 1))) with (Z.to_nat (Z.abs retry))
      by lia.
    reflexivity.
Qed.

Lemma InitDiagnostics_body_opens bs t w :
  exists ctl inb' delta,
    InitDiagnostics_body bs t w
    = (ctl, {| inbox := inb';
               trace := trace w ++ disable_normal_communication bs t
                          :: delta |})
    /\ (ctl = Continue \/ ctl = Return true).
Proof.
  unfold InitDiagnostics_body, InitDiagnostics_programming, sr1, sleep, send,
    broadcast_send, log, disable_normal_communication.
  destruct bs as [b|]; simpl;
    destruct (inbox w) as [|[r1|] [|[r2|] [|[r3|] rest]]]; simpl;
    repeat match goal with
           | |- context [negb (?a =? ?b)] => destruct (a =? b); simpl
           end;
    rewrite <- ?app_assoc; simpl;
    eexists _, _, _; (split; [reflexivity|auto]).
Qed.

(** Every call opens with DisableNormalCommunication. *)
Lemma InitDiagnostics_opens bs t w retry :
  exists b inb' delta,
    InitDiagnostics w bs t retry
    = Done b {| inbox := inb';
                trace := trace w ++ disable_normal_communication bs t
                           :: delta |}.
Proof.
  unfold InitDiagnostics. rewrite InitDiagnostics_loop_S.
  pose proof (normalize_retry_nonneg retry) as Hn.
  replace (normalize_retry retry >=? 0) with true by lia.
  destruct (InitDiagnostics_body_opens bs t w)
    as (ctl & inb1 & d1 & H & [->| ->]); rewrite H; cbv beta iota.
  - match goal with
    | |- context [InitDiagnostics_loop ?f _ _ ?r ?w1] =>
        destruct (InitDiagnostics_loop_attempts bs t f r w1)
          as (b & inb2 & d2 & Hrun & _); try lia
    end.
    rewrite Hrun. simpl trace. rewrite <- app_assoc. simpl.
    now exists b, inb2, (d1 ++ d2).
  - now exists true, inb1, d1.
Qed.

Lemma InitDiagnostics_handshake_retried w bs t retry w1 :
  InitDiagnostics_body bs t w = (Continue, w1) ->
  handshake_retried w w1 bs t retry.
Proof.
  intros Hbody. unfold handshake_retried.
  pose proof (InitDiagnostics_continues w bs t retry w1 Hbody) as Heq.
  destruct (Z.abs retry =? 0); [exact Heq|].
  split; [exact Heq|]. rewrite Heq. apply InitDiagnostics_opens.
Qed.

(** *** What the rounds of a [while retry >= 0] loop add to the trace *)

Section WhileBudgetInvariant.
Variable loop : nat -> Z -> World -> Run bool.
(** What holds of the world when a round starts. *)
Variable I : World -> Prop.
(** What a round that asks for another adds, and what the round that
    returns [True] adds. *)
Variables Q R : list Event -> Prop.

Hypothesis Q_nil : Q [].
Hypothesis Q_app : forall d1 d2, Q d1 -> Q d2 -> Q (d1 ++ d2).
Hypothesis loop_round :
  forall fuel retry w,
    I w ->
    (retry < 0 -> loop (S fuel) retry w = Done false w)
    /\ (0 <= retry ->
        exists inb' delta,
          let w' := {| inbox := inb'; trace := trace w ++ delta |} in
          (R delta /\ loop (S fuel) retry w = Done true w')
          \/ (Q delta /\ I w'
              /\ loop (S fuel) retry w = loop fuel (retry - 1) w')).

Lemma while_budget_invariant fuel :
  forall retry w,
    I w -> -1 <= retry -> (Z.to_nat (retry + 1) < fuel)%nat ->
    exists b inb' delta,
      loop fuel retry w = Done b {| inbox := inb'; trace := trace w ++ delta |}
      /\ (b = false -> Q delta)
      /\ (b = true -> exists d1 d2, delta = d1 ++ d2 /\ Q d1 /\ R d2).
Proof.
  induction fuel as [|fuel IH]; intros retry w HI Hr Hf; [lia|].
  destruct (loop_round fuel retry w HI) as (Hneg & Hpos).
  destruct (Z.lt_ge_cases retry 0) as [Hlt|Hge].
  - rewrite (Hneg Hlt). exists false, (inbox w), [].
    split; [f_equal; apply world_eta|]. split; [auto|discriminate].
  - destruct (Hpos Hge) as (inb1 & d1 & [(HR & H)|(HQ & HI1 & H)]);
      simpl in H; rewrite H.
    + exists true, inb1, d1. split; [reflexivity|].
      split; [discriminate|]. intros _. exists [], d1. auto.
    + destruct (IH (retry - 1) {| inbox := inb1; trace := trace w ++ d1 |}
                  HI1)
        as (b & inb2 & d2 & Hrun & Hfalse & Htrue); try lia.
      rewrite Hrun. simpl trace. rewrite <- app_assoc.
      exists b, inb2, (d1 ++ d2). split; [reflexivity|]. split.
      * intros Hb. apply Q_app; auto.
      * intros Hb. destruct (Htrue Hb) as (e1 & e2 & -> & HQ1 & HR2).
        exists (d1 ++ e1), e2. rewrite app_assoc. auto.
Qed.
End WhileBudgetInvariant.

(** One pass sends enableProgramming as its last message when it returns
    [True], and does not send it otherwise. *)
Lemma InitDiagnostics_body_enable bs t w :
  exists ctl inb' delta,
    InitDiagnostics_body bs t w
    = (ctl, {| inbox := inb'; trace := trace w ++ delta |})
    /\ ((ctl = Continue /\ count is_enable_programming delta = 0%nat)
        \/ (ctl = Return true
            /\ exists d, delta = d ++ [Send (GMLAN_PM 0x3); Sleep 50]
                         /\ count is_enable_programming d = 0%nat)).
Proof.
  unfold InitDiagnostics_body, InitDiagnostics_programming, sr1, sleep, send,
    broadcast_send, log.
  destruct bs as [b|]; simpl;
    destruct (inbox w) as [|[r1|] [|[r2|] [|[r3|] rest]]]; simpl;
    repeat match goal with
           | |- context [negb (?a =? ?b)] => destruct (a =? b); simpl
           end;
    rewrite <- ?app_assoc; simpl;
    eexists _, _, _; (split; [reflexivity|]);
    first [ left; split; reflexivity
          | right; split; [reflexivity|];
            first [ now exists [Sr1 (GMLAN_raw 40) t; Sleep 50;
                                Sr1 (GMLAN_raw 162) t; Sr1 (GMLAN_PM 1) t;
                                Sleep 50]
                  | now exists [Broadcast (GMLAN_raw 40); Sleep 50;
                                Sr1 (GMLAN_raw 162) t; Sr1 (GMLAN_PM 1) t;
                                Sleep 50] ] ].
Qed.

(** X3.  [InitDiagnostics] sends ProgrammingMode enableProgramming exactly
    when it returns [True]: a call that returns [True] has sent it once, as
    its last message, followed only by the closing pause; a call that returns
    [False] has not sent it. *)
Theorem enable_programming_is_sent_iff_success
    (w : World) (bs : option BroadcastSocket) (t : option Z) (retry : Z) :
  exists b inb' delta,
    InitDiagnostics w bs t retry
    = Done b {| inbox := inb'; trace := trace w ++ delta |}
    /\ count is_enable_programming delta = (if b then 1 else 0)%nat
    /\ (b = true ->
        exists d, delta = d ++ [Send (GMLAN_PM 0x3); Sleep 50]).
Proof.
  unfold InitDiagnostics.
  destruct (while_budget_invariant
              (fun fuel => InitDiagnostics_loop fuel bs t)
              (fun _ => True)
              (fun d => count is_enable_programming d = 0%nat)
              (fun d => exists d', d = d' ++ [Send (GMLAN_PM 0x3); Sleep 50]
                                   /\ count is_enable_programming d' = 0%nat))
    with (fuel := S (S (Z.to_nat (normalize_retry retry))))
         (retry := normalize_retry retry) (w := w)
    as (b & inb' & delta & Hrun & Hfalse & Htrue).
  - reflexivity.
  - intros d1 d2 H1 H2. rewrite count_app. lia.
  - intros fuel r0 w0 _. rewrite InitDiagnostics_loop_S. split.
    + intros Hlt. now replace (r0 >=? 0) with false by lia.
    + intros Hge. replace (r0 >=? 0) with true by lia.
      destruct (InitDiagnostics_body_enable bs t w0)
        as (ctl & inb1 & d1 & H & [(-> & Hc)|(-> & Hd)]); rewrite H;
        exists inb1, d1; [right|left]; auto.
  - exact I.
  - pose proof (normalize_retry_nonneg retry). lia.
  - pose proof (normalize_retry_nonneg retry). lia.
  - exists b, inb', delta. split; [exact Hrun|]. destruct b.
    + destruct (Htrue eq_refl) as (d1 & d2 & -> & H1 & d' & -> & H2).
      split.
      * rewrite !count_app, H1, H2. reflexivity.
      * intros _. exists (d1 ++ d'). now rewrite app_assoc.
    + split; [now apply Hfalse|discriminate].
Qed.

(** X1.  Without a broadcast socket, when the ECU answers the three requests
    with service codes 0x68, 0xe2 and 0xe5, [InitDiagnostics] returns [True]
    at its first attempt, whatever the retry budget: it has sent four
    messages (three requests and the unanswered enableProgramming), paused
    after DisableNormalCommunication, after requestProgramming and after
    enableProgramming, and read three answers. *)
Theorem handshake_succeeds_on_three_positive_answers
    (w : World) (t : option Z) (retry : Z) (r1 r2 r3 : Response)
    (rest : list (option Response)) :
  inbox w = Some r1 :: Some r2 :: Some r3 :: rest ->
  service r1 = 0x68 -> service r2 = 0xe2 -> service r3 = 0xe5 ->
  let delta :=
    [Sr1 (GMLAN_raw 0x28) t; Sleep 50; Sr1 (GMLAN_raw 0xa2) t;
     Sr1 (GMLAN_PM 0x1) t; Sleep 50; Send (GMLAN_PM 0x3); Sleep 50] in
  InitDiagnostics w None t retry
  = Done true {| inbox := rest; trace := trace w ++ delta |}
  /\ messages_sent delta = 4%nat.
Proof.
  intros Hin H1 H2 H3 delta. split; [|reflexivity].
  apply InitDiagnostics_returns.
  unfold InitDiagnostics_body, InitDiagnostics_programming, sr1, sleep, send,
    log.
  rewrite Hin. simpl. rewrite H1, H2, H3. simpl.
  rewrite <- !app_assoc. reflexivity.
Qed.

(** X2.  With a broadcast socket, DisableNormalCommunication goes out on it
    and no answer is read for it: when the ECU answers the two requests that
    follow with service codes 0xe2 and 0xe5, [InitDiagnostics] returns [True]
    at its first attempt having read two answers only. *)
Theorem broadcast_handshake_reads_no_answer_to_disable
    (w : World) (b : BroadcastSocket) (t : option Z) (retry : Z)
    (r2 r3 : Response) (rest : list (option Response)) :
  inbox w = Some r2 :: Some r3 :: rest ->
  service r2 = 0xe2 -> service r3 = 0xe5 ->
  InitDiagnostics w (Some b) t retry
  = Done true
      {| inbox := rest;
         trace := trace w ++
                  [Broadcast (GMLAN_raw 0x28); Sleep 50;
                   Sr1 (GMLAN_raw 0xa2) t; Sr1 (GMLAN_PM 0x1) t; Sleep 50;
                   Send (GMLAN_PM 0x3); Sleep 50] |}.
Proof.
  intros Hin H2 H3. apply InitDiagnostics_returns.
  unfold InitDiagnostics_body, InitDiagnostics_programming, sr1, sleep, send,
    broadcast_send, log.
  simpl. rewrite Hin. simpl. rewrite H2. simpl. rewrite H3. simpl.
  rewrite <- !app_assoc. reflexivity.
Qed.

Lemma not_answering_eqb ok r :
  not_answering ok (Some r) -> (service r =? ok) = false.
Proof. intros H. now apply Z.eqb_neq. Qed.

(** X4.  A timeout or a response with the wrong service code at any of the
    three answered steps ends the attempt there, without the remaining
    steps; the next attempt, if the budget allows one, starts over with
    DisableNormalCommunication instead of repeating the failed step. *)
Theorem failed_step_restarts_the_handshake
    (w : World) (t : option Z) (retry : Z) (x : option Response)
    (rest : list (option Response)) :
  (inbox w = x :: rest -> not_answering 0x68 x ->
   handshake_retried w
     {| inbox := rest; trace := trace w ++ [Sr1 (GMLAN_raw 0x28) t] |}
     None t retry)
  /\ (forall r1, inbox w = Some r1 :: x :: rest -> service r1 = 0x68 ->
      not_answering 0xe2 x ->
      handshake_retried w
        {| inbox := rest;
           trace := trace w ++ [Sr1 (GMLAN_raw 0x28) t; Sleep 50;
                                Sr1 (GMLAN_raw 0xa2) t] |}
        None t retry)
  /\ (forall r1 r2, inbox w = Some r1 :: Some r2 :: x :: rest ->
      service r1 = 0x68 -> service r2 = 0xe2 -> not_answering 0xe5 x ->
      handshake_retried w
        {| inbox := rest;
           trace := trace w ++ [Sr1 (GMLAN_raw 0x28) t; Sleep 50;
                                Sr1 (GMLAN_raw 0xa2) t;
                                Sr1 (GMLAN_PM 0x1) t] |}
        None t retry)
  /\ (forall b, inbox w = x :: rest -> not_answering 0xe2 x ->
      handshake_retried w
        {| inbox := rest;
           trace := trace w ++ [Broadcast (GMLAN_raw 0x28); Sleep 50;
                                Sr1 (GMLAN_raw 0xa2) t] |}
        (Some b) t retry)
  /\ (forall b r2, inbox w = Some r2 :: x :: rest -> service r2 = 0xe2 ->
      not_answering 0xe5 x ->
      handshake_retried w
        {| inbox := rest;
           trace := trace w ++ [Broadcast (GMLAN_raw 0x28); Sleep 50;
                                Sr1 (GMLAN_raw 0xa2) t;
                                Sr1 (GMLAN_PM 0x1) t] |}
        (Some b) t retry).
Proof.
  repeat apply conj; intros; apply InitDiagnostics_handshake_retried;
    unfold InitDiagnostics_body, InitDiagnostics_programming, sr1, sleep,
      send, broadcast_send, log; simpl;
    repeat match goal with
           | H : inbox w = _ |- _ => rewrite H; clear H; simpl
           | H : service _ = _ |- _ => rewrite H; clear H; simpl
           end;
    (destruct x as [r|];
     [match goal with
      | H : not_answering _ (Some r) |- _ =>
          rewrite (not_answering_eqb _ _ H); simpl
      end|]);
    rewrite <- ?app_assoc; reflexivity.
Qed.

(** *** A [while retry >= 0] loop whose opening request is never answered *)

Section WhileBudgetUnanswered.
Variable loop : nat -> Z -> World -> Run bool.
(** The opening request and the service code that answers it. *)
Variable e : Event.
Variable ok : Z.

Hypothesis loop_round :
  forall fuel retry w,
    Forall (not_answering ok) (inbox w) ->
    loop (S fuel) retry w
    = if retry >=? 0
      then loop fuel (retry - 1)
             {| inbox := tl (inbox w); trace := trace w ++ [e] |}
      else Done false w.

Lemma while_budget_unanswered fuel :
  forall retry w,
    -1 <= retry -> (Z.to_nat (retry + 1) < fuel)%nat ->
    Forall (not_answering ok) (inbox w) ->
    loop fuel retry w
    = Done false
        {| inbox := skipn (Z.to_nat (retry + 1)) (inbox w);
           trace := trace w ++ repeat e (Z.to_nat (retry + 1)) |}.
Proof.
  induction fuel as [|fuel IH]; intros retry w Hr Hf Hin; [lia|].
  rewrite (loop_round fuel retry w Hin).
  destruct (Z.geb_spec retry 0) as [Hge|Hlt].
  - rewrite IH; simpl inbox; simpl trace; try lia.
    + replace (Z.to_nat (retry + 1)) with (S (Z.to_nat (retry - 1 + 1)))
        by lia.
      f_equal. f_equal.
      * destruct (inbox w); simpl; [now rewrite skipn_nil|reflexivity].
      * rewrite <- app_assoc. reflexivity.
    + destruct Hin; simpl; auto.
  - replace (retry + 1) with 0 by lia. simpl. f_equal. apply world_eta.
Qed.
End WhileBudgetUnanswered.

Lemma InitDiagnostics_body_unanswered t w :
  Forall (not_answering 0x68) (inbox w) ->
  InitDiagnostics_body None t w
  = (Continue, {| inbox := tl (inbox w);
                  trace := trace w ++ [Sr1 (GMLAN_raw 0x28) t] |}).
Proof.
  intros Hin. unfold InitDiagnostics_body, sr1.
  destruct Hin as [|[r|] rest Hx _]; simpl; [reflexivity| |reflexivity].
  now rewrite (not_answering_eqb _ _ Hx).
Qed.

(** X5.  Without a broadcast socket, an ECU that never answers
    DisableNormalCommunication with service code 0x68 (it stays silent or
    answers otherwise) makes [InitDiagnostics] return [False] after
    [|retry| + 1] DisableNormalCommunication requests and nothing else: no
    later step is sent, no pause is taken, one answer slot is used up per
    request. *)
Theorem unanswered_disable_stops_the_handshake
    (w : World) (t : option Z) (retry : Z) :
  Forall (not_answering 0x68) (inbox w) ->
  let n := (Z.to_nat (Z.abs retry) + 1)%nat in
  InitDiagnostics w None t retry
  = Done false
      {| inbox := skipn n (inbox w);
         trace := trace w ++ repeat (Sr1 (GMLAN_raw 0x28) t) n |}.
Proof.
  intros Hin n. unfold InitDiagnostics. rewrite normalize_retry_abs.
  rewrite (while_budget_unanswered
             (fun fuel => InitDiagnostics_loop fuel None t)
             (Sr1 (GMLAN_raw 0x28) t) 0x68); try lia; try exact Hin.
  - subst n. now replace (Z.to_nat (Z.abs retry + 1))
               with (Z.to_nat (Z.abs retry) + 1)%nat by lia.
  - intros fuel r0 w0 H0. rewrite InitDiagnostics_loop_S.
    now rewrite (InitDiagnostics_body_unanswered t w0 H0).
Qed.

(** ** The seed and key exchange of [GetSecurityAccess] *)

Lemma GetSecurityAccess_continues w keyFunction level t retry w1 :
  Z.odd level = true ->
  GetSecurityAccess_body keyFunction level t w = (Continue, w1) ->
  key_step_retried w w1 keyFunction level t retry.
Proof.
  intros Hodd Hbody. unfold key_step_retried.
  assert (Heq : GetSecurityAccess w keyFunction level t retry
                = if Z.abs retry =? 0 then Done false w1
                  else GetSecurityAccess w1 keyFunction level t
                         (Z.abs retry - 1)).
  { unfold GetSecurityAccess.
    rewrite (odd_level_mod _ Hodd), !normalize_retry_abs,
      GetSecurityAccess_loop_S.
    replace (Z.abs retry >=? 0) with true by lia. rewrite Hbody.
    destruct (Z.eqb_spec (Z.abs retry) 0) as [Hz|Hnz].
    - rewrite Hz. reflexivity.
    - replace (Z.abs (Z.abs retry - 1)) with (Z.abs retry - 1) by lia.
      replace (S (Z.to_nat (Z.abs retry - 1))) with (Z.to_nat (Z.abs retry))
        by lia.
      reflexivity. }
  destruct (Z.abs retry =? 0); [exact Heq|].
  split; [exact Heq|]. rewrite Heq.
  now apply GetSecurityAccess_opens_with_seed.
Qed.

Lemma GetSecurityAccess_body_unanswered keyFunction level t w :
  Forall (not_answering 0x67) (inbox w) ->
  GetSecurityAccess_body keyFunction level t w
  = (Continue, {| inbox := tl (inbox w);
                  trace := trace w ++ [Sr1 (GMLAN_SA level None) t] |}).
Proof.
  intros Hin. unfold GetSecurityAccess_body, sr1.
  destruct Hin as [|[r|] rest Hx _]; simpl; [reflexivity| |reflexivity].
  now rewrite (not_answering_eqb _ _ Hx).
Qed.

(** X6.  A timeout or a response with another service code than 0x67 to the
    seed request ends the attempt without a key message: the attempt's retry
    is spent, and either the budget is used up and the call returns [False],
    or the call goes on as a new call with one retry less, opening with a
    new seed request. *)
Theorem failed_seed_request_is_retried_without_key
    (w : World) (keyFunction : Z -> Z) (level : Z) (t : option Z) (retry : Z)
    (x : option Response) (rest : list (option Response)) :
  Z.odd level = true ->
  inbox w = x :: rest ->
  not_answering 0x67 x ->
  key_step_retried w
    {| inbox := rest; trace := trace w ++ [Sr1 (GMLAN_SA level None) t] |}
    keyFunction level t retry.
Proof.
  intros Hodd Hin Hx. apply GetSecurityAccess_continues; [exact Hodd|].
  unfold GetSecurityAccess_body, sr1. rewrite Hin.
  destruct x as [r|]; [|reflexivity].
  now rewrite (not_answering_eqb _ _ Hx).
Qed.

(** X7.  With an odd level, an ECU that never answers the seed request with
    service code 0x67 makes [GetSecurityAccess] return [False] after
    [|retry| + 1] seed requests and nothing else: [keyFunction] is not
    called, no key is sent, one answer slot is used up per request. *)
Theorem unanswered_seed_requests_never_send_a_key
    (w : World) (keyFunction : Z -> Z) (level : Z) (t : option Z)
    (retry : Z) :
  Z.odd level = true ->
  Forall (not_answering 0x67) (inbox w) ->
  let n := (Z.to_nat (Z.abs retry) + 1)%nat in
  GetSecurityAccess w keyFunction level t retry
  = Done false
      {| inbox := skipn n (inbox w);
         trace := trace w ++ repeat (Sr1 (GMLAN_SA level None) t) n |}.
Proof.
  intros Hodd Hin n. unfold GetSecurityAccess.
  rewrite (odd_level_mod _ Hodd), normalize_retry_abs.
  rewrite (while_budget_unanswered
             (fun fuel => GetSecurityAccess_loop fuel keyFunction level t)
             (Sr1 (GMLAN_SA level None) t) 0x67); try lia; try exact Hin.
  - subst n. now replace (Z.to_nat (Z.abs retry + 1))
               with (Z.to_nat (Z.abs retry) + 1)%nat by lia.
  - intros fuel r0 w0 H0. rewrite GetSecurityAccess_loop_S.
    now rewrite (GetSecurityAccess_body_unanswered keyFunction level t w0 H0).
Qed.

Lemma security_access_event_incl keyFunction level t inb inb' e :
  (forall y, In y inb -> In y inb') ->
  security_access_event keyFunction level t inb e ->
  security_access_event keyFunction level t inb' e.
Proof.
  intros Hincl [He|(r & Hr & Hs & Hseed & He)]; [now left|].
  right. exists r. auto.
Qed.

Lemma GetSecurityAccess_body_events keyFunction level t w :
  exists ctl inb' delta,
    GetSecurityAccess_body keyFunction level t w
    = (ctl, {| inbox := inb'; trace := trace w ++ delta |})
    /\ (ctl = Continue \/ ctl = Return true)
    /\ Forall (security_access_event keyFunction level t (inbox w)) delta
    /\ (forall y, In y inb' -> In y (inbox w)).
Proof.
  unfold GetSecurityAccess_body, sr1.
  set (seedreq := Sr1 (GMLAN_SA level None) t).
  assert (Hseedreq : forall inb,
             security_access_event keyFunction level t inb seedreq)
    by (intros inb; now left).
  destruct (inbox w) as [|[r1|] rest1]; simpl.
  - exists Continue, [], [seedreq]. repeat split; auto.
  - destruct (Z.eqb_spec (service r1) 103) as [Hs|Hs]; simpl.
    + destruct (Z.eqb_spec (securitySeed r1) 0) as [Hz|Hz]; simpl.
      * exists (Return true), rest1, [seedreq].
        repeat split; auto; intros y Hy; now right.
      * assert (Hkey : security_access_event keyFunction level t
                         (Some r1 :: rest1)
                         (Sr1 (GMLAN_SA (level + 1)
                                 (Some (keyFunction (securitySeed r1)))) t)).
        { right. exists r1. repeat split; auto. now left. }
        destruct rest1 as [|[r2|] rest2]; simpl;
          repeat match goal with
                 | |- context [if ?c then _ else _] => destruct c; simpl
                 end;
          rewrite <- ?app_assoc; simpl;
          eexists _, _, _; (split; [reflexivity|]);
          (split; [auto|]);
          (split; [repeat (apply Forall_cons;
                           [solve [apply Hseedreq | exact Hkey]|]);
                   apply Forall_nil|]);
          intros y Hy; simpl in *; tauto.
    + exists Continue, rest1, [seedreq].
      repeat split; auto; intros y Hy; now right.
  - exists Continue, rest1, [seedreq].
    repeat split; auto; intros y Hy; now right.
Qed.

(** X8.  With an odd level, whatever the ECU answers, the call returns and
    everything it does on the transport is a request of one of two kinds: a
    seed request at [level], or a key at [level + 1] that is [keyFunction]
    applied to a non-zero seed which a response with service code 0x67 among
    the ECU's answers carried.  It never sends a key it was not given a seed
    for, and never sniffs, sends without waiting, or pauses. *)
Theorem security_access_sends_only_seed_requests_and_derived_keys
    (w : World) (keyFunction : Z -> Z) (level : Z) (t : option Z)
    (retry : Z) :
  Z.odd level = true ->
  exists b inb' delta,
    GetSecurityAccess w keyFunction level t retry
    = Done b {| inbox := inb'; trace := trace w ++ delta |}
    /\ Forall (security_access_event keyFunction level t (inbox w)) delta.
Proof.
  intros Hodd. unfold GetSecurityAccess. rewrite (odd_level_mod _ Hodd).
  set (ev := security_access_event keyFunction level t (inbox w)).
  destruct (while_budget_invariant
              (fun fuel => GetSecurityAccess_loop fuel keyFunction level t)
              (fun w0 => forall y, In y (inbox w0) -> In y (inbox w))
              (Forall ev) (Forall ev))
    with (fuel := S (S (Z.to_nat (normalize_retry retry))))
         (retry := normalize_retry retry) (w := w)
    as (b & inb' & delta & Hrun & Hfalse & Htrue).
  - constructor.
  - intros d1 d2 H1 H2. apply Forall_app. auto.
  - intros fuel r0 w0 Hincl. rewrite GetSecurityAccess_loop_S. split.
    + intros Hlt. now replace (r0 >=? 0) with false by lia.
    + intros Hge. replace (r0 >=? 0) with true by lia.
      destruct (GetSecurityAccess_body_events keyFunction level t w0)
        as (ctl & inb1 & d1 & H & Hctl & Hev & Hsub). rewrite H.
      assert (Hev' : Forall ev d1).
      { eapply Forall_impl; [|exact Hev]. intros e.
        apply security_access_event_incl. exact Hincl. }
      exists inb1, d1. destruct Hctl as [-> | ->]; [right|left]; auto.
  - auto.
  - pose proof (normalize_retry_nonneg retry). lia.
  - pose proof (normalize_retry_nonneg retry). lia.
  - exists b, inb', delta. split; [exact Hrun|]. destruct b.
    + destruct (Htrue eq_refl) as (d1 & d2 & -> & H1 & H2).
      apply Forall_app. auto.
    + now apply Hfalse.
Qed.

(** ** Answers read by a finished loop *)

(** *** What a [while True] loop has read when it ends *)

Section WhileTrueAnswers.
Variable A : Type.
Variable failure : A.
Variable loop : nat -> Z -> World -> Run A.
(** How a result other than [failure] relates to the answer that made the
    loop end. *)
Variable good : A -> Response -> Prop.

Hypothesis loop_O : forall retry w, loop O retry w = OutOfFuel.
Hypothesis loop_round :
  forall fuel retry w, exists consumed w',
    inbox w = consumed ++ inbox w'
    /\ ((exists a r0 pre,
            good a r0 /\ consumed = pre ++ [Some r0]
            /\ loop (S fuel) retry w = Done a w')
        \/ loop (S fuel) retry w
           = if retry - 1 >=? 0 then loop fuel (retry - 1) w'
             else Done failure w').

Lemma while_true_answers fuel :
  forall retry w a w',
    loop fuel retry w = Done a w' ->
    exists consumed,
      inbox w = consumed ++ inbox w'
      /\ (a <> failure ->
          exists pre r0, consumed = pre ++ [Some r0] /\ good a r0).
Proof.
  induction fuel as [|fuel IH]; intros retry w a w' Hrun.
  - rewrite loop_O in Hrun. discriminate.
  - destruct (loop_round fuel retry w)
      as (consumed & w1 & Hinb & [(a1 & r0 & pre & Hg & -> & H)|H]);
      rewrite H in Hrun.
    + injection Hrun as <- <-. exists (pre ++ [Some r0]).
      split; [exact Hinb|]. intros _. now exists pre, r0.
    + destruct (retry - 1 >=? 0).
      * destruct (IH _ _ _ _ Hrun) as (consumed2 & Hinb2 & Hgood).
        exists (consumed ++ consumed2).
        split; [now rewrite <- app_assoc, <- Hinb2|].
        intros Ha. destruct (Hgood Ha) as (pre & r0 & -> & Hg).
        exists (consumed ++ pre), r0. now rewrite app_assoc.
      * injection Hrun as <- <-. exists consumed.
        split; [exact Hinb|]. intros Ha. now elim Ha.
Qed.
End WhileTrueAnswers.
Arguments while_true_answers {A} failure loop good loop_O loop_round fuel.

Lemma RequestDownload_loop_answers length t fuel retry w b w' :
  RequestDownload_loop fuel length t retry w = Done b w' ->
  exists consumed,
    inbox w = consumed ++ inbox w'
    /\ (b <> false ->
        exists pre r0, consumed = pre ++ [Some r0] /\ service r0 = 0x74).
Proof.
  apply (while_true_answers false
           (fun fuel => RequestDownload_loop fuel length t)
           (fun _ r0 => service r0 = 0x74)); [reflexivity|].
  clear. intros fuel retry w. cbn [RequestDownload_loop].
  unfold RequestDownload_body.
  destruct (resolve_consumes 0x34 (GMLAN_RD length) t w)
    as (consumed & Hinb & Hres).
  destruct (resolve 52 (GMLAN_RD length) t w) as [[r|] w1]; simpl in *;
    exists consumed, w1; (split; [exact Hinb|]).
  - destruct (Z.eqb_spec (service r) 116) as [Hs|Hs]; simpl.
    + left. destruct (Hres r eq_refl) as (pre & ->).
      now exists true, r, pre.
    + right. unfold consume_retry. now destruct (retry - 1 >=? 0).
  - right. unfold consume_retry. now destruct (retry - 1 >=? 0).
Qed.

Lemma ReadMemoryByAddress_loop_answers addr length t fuel retry w res w' :
  ReadMemoryByAddress_loop fuel addr length t retry w = Done res w' ->
  exists consumed,
    inbox w = consumed ++ inbox w'
    /\ (res <> None ->
        exists pre r0,
          consumed = pre ++ [Some r0]
          /\ service r0 = 0x63 /\ res = dataRecord r0).
Proof.
  apply (while_true_answers None
           (fun fuel => ReadMemoryByAddress_loop fuel addr length t)
           (fun a r0 => service r0 = 0x63 /\ a = dataRecord r0));
    [reflexivity|].
  clear. intros fuel retry w. cbn [ReadMemoryByAddress_loop].
  unfold ReadMemoryByAddress_body.
  destruct (resolve_consumes 0x23 (GMLAN_RMBA addr length) t w)
    as (consumed & Hinb & Hres).
  destruct (resolve 35 (GMLAN_RMBA addr length) t w) as [[r|] w1];
    simpl in *; exists consumed, w1; (split; [exact Hinb|]).
  - destruct (Z.eqb_spec (service r) 99) as [Hs|Hs]; simpl.
    + left. destruct (Hres r eq_refl) as (pre & ->).
      now exists (dataRecord r), r, pre.
    + right. unfold consume_retry. now destruct (retry - 1 >=? 0).
  - right. unfold consume_retry. now destruct (retry - 1 >=? 0).
Qed.

(** ** [RequestDownload] and [ReadMemoryByAddress] *)

(** X9.  Whatever [length] is (nothing about it is checked), whenever
    [RequestDownload] returns, all it has done is send the one request for
    [length], between one and [|retry| + 1] times, and sniff for answers to
    it.  It returns [True] only when the last answer it read is a response
    with service code 0x74, and [False] only after exactly [|retry| + 1]
    requests; if none of the answers it read has service code 0x74 it
    returns [False].  (The call does not return against an ECU that answers
    "response pending" for ever.) *)
Theorem request_download_succeeds_only_on_positive_answer
    (w : World) (length : Z) (t : option Z) (retry : Z)
    (b : bool) (w' : World) :
  RequestDownload w length t retry = Done b w' ->
  exists consumed delta,
    inbox w = consumed ++ inbox w'
    /\ trace w' = trace w ++ delta
    /\ only_request (GMLAN_RD length) t delta
    /\ (1 <= count is_sent delta <= Z.to_nat (Z.abs retry) + 1)%nat
    /\ (b = true ->
        exists pre r0, consumed = pre ++ [Some r0] /\ service r0 = 0x74)
    /\ (b = false ->
        count is_sent delta = (Z.to_nat (Z.abs retry) + 1)%nat)
    /\ (Forall (not_answering 0x74) consumed -> b = false).
Proof.
  unfold RequestDownload. rewrite normalize_retry_abs. intros Hret.
  destruct (RequestDownload_loop_attempts length t
              (S (Z.to_nat (Z.abs retry))) (Z.abs retry) w)
    as (b0 & inb' & delta & Hrun & Honly & Hc & Hfail); try lia.
  destruct (RequestDownload_loop_answers _ _ _ _ _ _ _ Hret)
    as (consumed & Hinb & Hgood).
  rewrite Hrun in Hret. injection Hret as -> <-.
  assert (Htrue : b = true ->
            exists pre r0, consumed = pre ++ [Some r0] /\ service r0 = 0x74).
  { intros ->. apply Hgood. discriminate. }
  exists consumed, delta. repeat split; auto; try lia.
  intros Hnever. destruct b; [|reflexivity].
  destruct (Htrue eq_refl) as (pre & r0 & -> & Hs).
  apply Forall_elt in Hnever. now elim Hnever.
Qed.

(** X10.  The bytes [ReadMemoryByAddress] returns are the [dataRecord] of
    the last answer it read, and that answer is a response with service code
    0x63; the answers before it are used up, the ones after it are left. *)
Theorem read_returns_the_data_record_of_the_positive_answer
    (scheme : Z) (w : World) (addr length : Z) (t : option Z) (retry : Z)
    (data : list byte) (w' : World) :
  ReadMemoryByAddress scheme w addr length t retry = Done (Some data) w' ->
  exists pre r0,
    inbox w = pre ++ Some r0 :: inbox w'
    /\ service r0 = 0x63
    /\ dataRecord r0 = Some data.
Proof.
  unfold ReadMemoryByAddress.
  destruct (invalid_address scheme addr); [discriminate|].
  destruct ((length <=? 0) || (length >? 4094 - scheme)); [discriminate|].
  intros Hrun.
  destruct (ReadMemoryByAddress_loop_answers _ _ _ _ _ _ _ _ Hrun)
    as (consumed & Hinb & Hgood).
  destruct Hgood as (pre & r0 & -> & Hs & Hd); [discriminate|].
  exists pre, r0. now rewrite Hinb, <- app_assoc.
Qed.

(** X11.  [ReadMemoryByAddress] sends nothing exactly when the address is
    outside [0, 256^scheme) or the length is outside [1, 4094 - scheme]: a
    length of zero or below is refused like one that is too large, and with
    any other arguments the request goes out.  A refused call returns [None],
    raises one warning and reads no answer. *)
Theorem read_sends_unless_arguments_are_refused
    (scheme : Z) (w : World) (addr length : Z) (t : option Z) (retry : Z) :
  0 <= scheme ->
  exists res inb' delta,
    ReadMemoryByAddress scheme w addr length t retry
    = Done res {| inbox := inb'; trace := trace w ++ delta |}
    /\ (messages_sent delta = 0%nat
        <-> addr < 0 \/ 256 ^ scheme <= addr
            \/ length <= 0 \/ 4094 - scheme < length)
    /\ (messages_sent delta = 0%nat ->
        res = None /\ inb' = inbox w /\ count is_warning delta = 1%nat).
Proof.
  intros Hs. unfold ReadMemoryByAddress.
  destruct (Z.lt_ge_cases addr 0) as [Ha|Ha];
    [|destruct (Z.le_gt_cases (256 ^ scheme) addr) as [Hb|Hb]].
  - rewrite invalid_address_true by auto.
    exists None, (inbox w), [Warning (InvalidAddress addr scheme)].
    split; [reflexivity|]. split; [split; auto|auto].
  - rewrite invalid_address_true by auto.
    exists None, (inbox w), [Warning (InvalidAddress addr scheme)].
    split; [reflexivity|]. split; [split; auto|auto].
  - rewrite invalid_address_false by auto.
    destruct (Z.leb_spec length 0) as [Hl|Hl]; cbn [orb];
      [|destruct (Z.gtb_spec length (4094 - scheme)) as [Hg|Hg]].
    + exists None, (inbox w), [Warning (InvalidLength length scheme)].
      split; [reflexivity|]. split; [split; auto|auto].
    + exists None, (inbox w), [Warning (InvalidLength length scheme)].
      split; [reflexivity|]. split; [split; auto|auto].
    + destruct (ReadMemoryByAddress_loop_attempts addr length t
                  (S (Z.to_nat (normalize_retry retry)))
                  (normalize_retry retry) w)
        as (res & inb' & delta & Hrun & _ & Hc & _);
        try (pose proof (normalize_retry_nonneg retry); lia).
      exists res, inb', delta. split; [exact Hrun|].
      unfold messages_sent. split; [split|].
      * intros H0. lia.
      * intros [H|[H|[H|H]]]; lia.
      * intros H0. lia.
Qed.

(** ** The chunk loop of [TransferData] *)

Lemma count_in (f : Event -> bool) (e : Event) (l : list Event) :
  In e l -> f e = true -> (1 <= count f l)%nat.
Proof.
  induction l as [|x l IH]; intros Hin Hf; [destruct Hin|].
  rewrite count_cons. destruct Hin as [->|Hin].
  - rewrite Hf. lia.
  - specialize (IH Hin Hf). lia.
Qed.

Lemma count_warning_only_request pkt t delta :
  only_request pkt t delta -> count is_warning delta = 0%nat.
Proof.
  induction 1 as [|e delta He _ IH]; [reflexivity|].
  rewrite count_cons, IH. now destruct He as [-> | ->].
Qed.

(** The chunk loop raises no warning. *)
Lemma TransferData_for_no_warning addr payload maxmsglen t retry :
  0 <= retry ->
  forall offsets w,
    exists b inb' delta,
      TransferData_for offsets addr payload maxmsglen t retry w
      = Done b {| inbox := inb'; trace := trace w ++ delta |}
      /\ count is_warning delta = 0%nat.
Proof.
  intros Hr. induction offsets as [|i offsets IH]; intros w.
  - exists true, (inbox w), []. split; [simpl; f_equal; apply world_eta|].
    reflexivity.
  - cbn [TransferData_for].
    destruct (TransferData_while_attempts addr payload maxmsglen t i
                (S (Z.to_nat retry)) retry w Hr)
      as (b1 & inb1 & d1 & Hrun1 & Hd1 & _); [lia|].
    rewrite Hrun1. pose proof (count_warning_only_request _ _ _ Hd1) as H1.
    destruct b1.
    + destruct (IH {| inbox := inb1; trace := trace w ++ d1 |})
        as (b & inb2 & d2 & Hrun2 & H2).
      rewrite Hrun2. simpl trace. rewrite <- app_assoc.
      exists b, inb2, (d1 ++ d2). split; [reflexivity|].
      rewrite count_app. lia.
    + now exists false, inb1, d1.
Qed.

(** X12.  The one thing [TransferData] refuses is a start address outside
    [0, 256^scheme): the call then returns [False] with a warning, reads no
    answer and sends nothing, whatever the payload.  With a valid address no
    warning is raised. *)
Theorem transfer_data_refuses_only_a_bad_start_address
    (scheme : Z) (w : World) (addr : Z) (payload : list byte)
    (maxmsglen t : option Z) (retry : Z) :
  0 <= scheme < 4093 ->
  exists b inb' delta,
    TransferData scheme w addr payload maxmsglen t retry
    = Done b {| inbox := inb'; trace := trace w ++ delta |}
    /\ (count is_warning delta = 1%nat <-> addr < 0 \/ 256 ^ scheme <= addr)
    /\ (addr < 0 \/ 256 ^ scheme <= addr ->
        b = false /\ inb' = inbox w
        /\ delta = [Warning (InvalidAddress addr scheme)]).
Proof.
  intros Hs. unfold TransferData.
  assert (Hcases : (addr < 0 \/ 256 ^ scheme <= addr)
                   \/ 0 <= addr < 256 ^ scheme) by lia.
  destruct Hcases as [Hbad|Hgood].
  - rewrite invalid_address_true by (auto; lia).
    exists false, (inbox w), [Warning (InvalidAddress addr scheme)].
    split; [reflexivity|]. split; [split; auto|auto].
  - rewrite invalid_address_false by (auto; lia).
    pose proof (effective_maxmsglen_pos scheme maxmsglen (proj2 Hs)) as Hm.
    destruct (py_range 0 (len payload) (effective_maxmsglen scheme maxmsglen))
      as [offsets|] eqn:Hrange.
    + destruct (TransferData_for_no_warning addr payload
                  (effective_maxmsglen scheme maxmsglen) t
                  (normalize_retry retry) (normalize_retry_nonneg retry)
                  offsets w)
        as (b & inb' & delta & Hrun & Hw).
      exists b, inb', delta. split; [exact Hrun|]. rewrite Hw.
      split; [split|]; intros H; exfalso; lia.
    + unfold py_range in Hrange.
      replace (effective_maxmsglen scheme maxmsglen =? 0) with false
        in Hrange by lia.
      discriminate.
Qed.

(** X13.  With a valid address, whatever the ECU answers, every request
    sent is for an offset [i] that is a multiple of [m], the chunk size in
    force, and carries [payload[i:i + m]], which has
    [min(m, len(payload) - i)] bytes: [m] bytes unless fewer are left from
    [i] on, which makes it the last chunk, and never none.  A [maxmsglen]
    between 1 and [4093 - scheme] is the chunk size in force. *)
Theorem chunks_are_full_except_the_last
    (scheme : Z) (w : World) (addr : Z) (payload : list byte)
    (maxmsglen t : option Z) (retry : Z) :
  0 <= scheme < 4093 ->
  0 <= addr < 256 ^ scheme ->
  let m := effective_maxmsglen scheme maxmsglen in
  (forall m0, maxmsglen = Some m0 -> 0 < m0 <= 4093 - scheme -> m = m0)
  /\ exists b inb' delta,
      TransferData scheme w addr payload maxmsglen t retry
      = Done b {| inbox := inb'; trace := trace w ++ delta |}
      /\ Forall (fun c => exists k : nat,
                   let i := Z.of_nat k * m in
                   0 <= i < len payload
                   /\ c = (addr + i, py_slice payload i (Some (i + m)))
                   /\ len (snd c) = Z.min m (len payload - i)
                   /\ 1 <= len (snd c)
                   /\ (i + m <= len payload -> len (snd c) = m)
                   /\ (len (snd c) < m -> len payload < i + m))
           (chunks_sent delta).
Proof.
  intros Hs Ha m. split.
  - intros m0 -> Hm0. subst m. unfold effective_maxmsglen.
    replace (m0 <=? 0) with false by lia.
    now replace (m0 >? 4093 - scheme) with false by lia.
  - pose proof (effective_maxmsglen_pos scheme maxmsglen (proj2 Hs)) as Hm.
    fold m in Hm.
    destruct (TransferData_partition scheme addr payload maxmsglen t retry
                Hs Ha)
      as (offsets & _ & Hmul & Hbound & Hany & _). fold m in Hmul, Hany.
    destruct (Hany w) as (b & inb' & delta & Hrun & Hch).
    exists b, inb', delta. split; [exact Hrun|].
    eapply Forall_impl; [|exact Hch].
    intros c (i & Hi & -> & Hlen). cbn [snd] in *.
    pose proof (proj1 (Forall_forall _ _) Hbound i Hi) as Hi0.
    rewrite Hmul in Hi. apply in_map_iff in Hi.
    destruct Hi as (k & <- & _). exists k. cbv zeta. cbn [snd].
    repeat split; try lia.
Qed.

Lemma NoDup_app_disjoint (l1 l2 : list Z) (x : Z) :
  NoDup (l1 ++ l2) -> In x l1 -> In x l2 -> False.
Proof.
  induction l1 as [|y l1 IH]; intros Hnd H1 H2; [destruct H1|].
  simpl in Hnd. inversion Hnd as [|? ? Hy Hnd']; subst.
  destruct H1 as [->|H1]; [|now apply IH].
  apply Hy. apply in_or_app. now right.
Qed.

(** A chunk loop that returns [False] got through a first part of the
    offsets and gave up in the loop of the offset after them. *)
Lemma TransferData_for_failure addr payload maxmsglen t retry :
  0 <= retry ->
  forall offsets w w',
    TransferData_for offsets addr payload maxmsglen t retry w = Done false w' ->
    exists pre i post w1,
      offsets = pre ++ i :: post
      /\ TransferData_for pre addr payload maxmsglen t retry w = Done true w1
      /\ TransferData_while (S (Z.to_nat retry)) addr payload maxmsglen t i
           retry w1 = Done false w'.
Proof.
  intros Hr. induction offsets as [|i offsets IH]; intros w w' Hrun;
    [discriminate|].
  cbn [TransferData_for] in Hrun.
  destruct (TransferData_while_attempts addr payload maxmsglen t i
              (S (Z.to_nat retry)) retry w Hr)
    as (b1 & inb1 & d1 & Hrun1 & _); [lia|].
  rewrite Hrun1 in Hrun. destruct b1.
  - destruct (IH _ _ Hrun) as (pre & j & post & w1 & -> & Hpre & Hj).
    exists (i :: pre), j, post, w1. split; [reflexivity|].
    split; [|exact Hj]. cbn [TransferData_for]. now rewrite Hrun1.
  - exists [], i, offsets, w. split; [reflexivity|].
    split; [reflexivity|]. now rewrite Hrun1.
Qed.

(** X14.  With a valid address, a call that returns [False] has given up on
    one chunk: the chunks before it were each sent, that chunk was requested
    exactly [|retry| + 1] times, and no request was sent for any chunk after
    it.  Nothing in the result tells how far the upload got. *)
Theorem exhausted_chunk_aborts_the_upload
    (scheme : Z) (w : World) (addr : Z) (payload : list byte)
    (maxmsglen t : option Z) (retry : Z) (w' : World) :
  0 <= scheme < 4093 ->
  0 <= addr < 256 ^ scheme ->
  TransferData scheme w addr payload maxmsglen t retry = Done false w' ->
  exists pre i post delta,
    py_range 0 (len payload) (effective_maxmsglen scheme maxmsglen)
    = Some (pre ++ i :: post)
    /\ trace w' = trace w ++ delta
    /\ count (is_chunk_at (addr + i)) delta
       = (Z.to_nat (Z.abs retry) + 1)%nat
    /\ (forall j, In j pre ->
          (1 <= count (is_chunk_at (addr + j)) delta)%nat)
    /\ (forall j, In j post -> count (is_chunk_at (addr + j)) delta = 0%nat).
Proof.
  intros Hs Ha. unfold TransferData.
  rewrite invalid_address_false by (auto; lia).
  rewrite normalize_retry_abs.
  set (m := effective_maxmsglen scheme maxmsglen).
  destruct (py_range 0 (len payload) m) as [offsets|] eqn:Hrange;
    [|discriminate].
  intros Hrun.
  destruct (TransferData_for_failure addr payload m t (Z.abs retry)
              ltac:(lia) offsets w w' Hrun)
    as (pre & i & post & w1 & -> & Hpre & Hi).
  destruct (py_range_offsets _ _ _ Hrange (len_nonneg payload)) as (Hnd & _).
  pose proof (NoDup_remove_2 _ _ _ Hnd) as Hni.
  pose proof (NoDup_remove_1 _ _ _ Hnd) as Hnd1.
  assert (Hndpre : NoDup pre) by (eapply NoDup_app_remove_r; eauto).
  destruct (TransferData_for_attempts addr payload m t (Z.abs retry)
              ltac:(lia) pre w Hndpre)
    as (b1 & inb1 & d1 & Hrun1 & _ & Hz1 & _).
  rewrite Hrun1 in Hpre. injection Hpre as -> <-.
  destruct (TransferData_for_success addr payload m t (Z.abs retry)
              ltac:(lia) pre w _ Hrun1) as (d1' & Htr1 & Hall1).
  simpl in Htr1. apply app_inv_head in Htr1. subst d1'.
  destruct (TransferData_while_attempts addr payload m t i
              (S (Z.to_nat (Z.abs retry))) (Z.abs retry)
              {| inbox := inb1; trace := trace w ++ d1 |} ltac:(lia))
    as (b2 & inb2 & d2 & Hrun2 & Hd2 & _ & Hfail); [lia|].
  rewrite Hrun2 in Hi. injection Hi as -> <-.
  specialize (Hfail eq_refl).
  exists pre, i, post, (d1 ++ d2). split; [reflexivity|].
  simpl trace. split; [now rewrite app_assoc|].
  assert (Hc2 : forall a, count (is_chunk_at a) d2
                  = if addr + i =? a then count is_sent d2 else 0%nat)
    by (intros a; eapply count_chunk_only_request; eauto).
  repeat split.
  - rewrite count_app, Hc2, Z.eqb_refl, Hfail, Hz1; [lia|].
    replace (addr + i - addr) with i by lia.
    intros Hin. apply Hni. apply in_or_app. now left.
  - intros j Hj. rewrite count_app.
    assert (1 <= count (is_chunk_at (addr + j)) d1)%nat; [|lia].
    eapply count_in; [apply Hall1; exact Hj|]. simpl. apply Z.eqb_refl.
  - intros j Hj. rewrite count_app, Hc2, Hz1.
    + destruct (Z.eqb_spec (addr + i) (addr + j)) as [Heq|]; [|reflexivity].
      exfalso. assert (i = j) by lia. subst j.
      apply Hni. apply in_or_app. now right.
    + replace (addr + j - addr) with j by lia. intros Hin.
      exact (NoDup_app_disjoint _ _ _ Hnd1 Hin Hj).
Qed.

(** A chunk that times out [k] times within the budget and is then
    accepted. *)
Lemma TransferData_while_timeouts addr payload maxmsglen t i r rest :
  service r = 0x76 ->
  forall k fuel retry tr,
    Z.of_nat k <= retry -> (k < fuel)%nat ->
    TransferData_while fuel addr payload maxmsglen t i retry
      {| inbox := repeat None k ++ Some r :: rest; trace := tr |}
    = Done true
        {| inbox := rest;
           trace := tr ++ repeat (Sr1 (GMLAN_TD (addr + i)
                                         (transdata_at payload maxmsglen i))
                                    t) (S k) |}.
Proof.
  intros Hr. induction k as [|k IH]; intros fuel retry tr Hk Hf;
    (destruct fuel as [|fuel]; [lia|]).
  - simpl repeat. simpl app at 1.
    now rewrite TransferData_while_accepted.
  - cbn [TransferData_while].
    pose proof (TransferData_absorbs addr payload maxmsglen t i [] None
                  (repeat None k ++ Some r :: rest) tr retry (Forall_nil _))
      as H.
    simpl in H. simpl repeat. simpl app at 1. rewrite H.
    replace (retry - 1 >=? 0) with true by lia.
    rewrite IH by lia. rewrite <- app_assoc. reflexivity.
Qed.

Lemma TransferData_for_timeouts addr payload maxmsglen t retry k :
  Z.of_nat k <= retry ->
  forall offsets rs rest tr,
    length rs = length offsets ->
    Forall (fun r => service r = 0x76) rs ->
    TransferData_for offsets addr payload maxmsglen t retry
      {| inbox := concat (map (fun r => repeat None k ++ [Some r]) rs)
                  ++ rest;
         trace := tr |}
    = Done true
        {| inbox := rest;
           trace := tr ++ concat
                      (map (fun i =>
                              repeat (Sr1 (GMLAN_TD (addr + i)
                                             (transdata_at payload maxmsglen
                                                i)) t) (S k))
                         offsets) |}.
Proof.
  intros Hk. induction offsets as [|i offsets IH];
    intros rs rest tr Hlen Hrs.
  - destruct rs; [|discriminate]. simpl. now rewrite app_nil_r.
  - destruct rs as [|r rs]; [discriminate|].
    inversion Hrs as [|? ? Hr Hrs']; subst.
    cbn [TransferData_for map concat].
    rewrite <- !app_assoc. cbn [app].
    rewrite (TransferData_while_timeouts addr payload maxmsglen t i r _ Hr)
      by lia.
    rewrite IH by (simpl in Hlen; auto; lia).
    rewrite <- app_assoc. reflexivity.
Qed.

(** X15.  Every chunk has the whole retry budget to itself: with a valid
    address, against an ECU that lets each request time out [k] times, for
    any [k] up to [|retry|], before accepting it, the call returns [True]
    having sent every chunk [k + 1] times in order, however many chunks and
    so however many timeouts in all. *)
Theorem each_chunk_has_its_own_retry_budget
    (scheme addr : Z) (payload : list byte) (maxmsglen t : option Z)
    (retry : Z) (k : nat) (offsets : list Z) (rs : list Response)
    (rest : list (option Response)) (tr : list Event) :
  0 <= scheme < 4093 ->
  0 <= addr < 256 ^ scheme ->
  (k <= Z.to_nat (Z.abs retry))%nat ->
  let m := effective_maxmsglen scheme maxmsglen in
  py_range 0 (len payload) m = Some offsets ->
  length rs = length offsets ->
  Forall (fun r => service r = 0x76) rs ->
  TransferData scheme
    {| inbox := concat (map (fun r => repeat None k ++ [Some r]) rs) ++ rest;
       trace := tr |}
    addr payload maxmsglen t retry
  = Done true
      {| inbox := rest;
         trace := tr ++ concat
                    (map (fun i =>
                            repeat (Sr1 (GMLAN_TD (addr + i)
                                           (transdata_at payload m i)) t)
                              (S k))
                       offsets) |}.
Proof.
  intros Hs Ha Hk m Hrange Hlen Hrs. unfold TransferData.
  rewrite invalid_address_false by (auto; lia). fold m.
  rewrite Hrange, normalize_retry_abs.
  apply TransferData_for_timeouts; auto. lia.
Qed.

(** ** [TransferPayload]: RequestDownload, then TransferData *)

Lemma RequestDownload_accepted w length t retry r rest :
  inbox w = Some r :: rest ->
  service r = 0x74 ->
  RequestDownload w length t retry
  = Done true {| inbox := rest;
                 trace := trace w ++ [Sr1 (GMLAN_RD length) t] |}.
Proof.
  intros Hin Hr. destruct w as [inb tr]. simpl in Hin. subst inb.
  unfold RequestDownload.
  exact (RequestDownload_loop_pending _ length t _ [] r rest tr
           (Forall_nil _) Hr).
Qed.

Lemma RequestDownload_unanswered w length t retry :
  Forall (not_answering 0x74) (inbox w) ->
  exists inb' delta,
    RequestDownload w length t retry
    = Done false {| inbox := inb'; trace := trace w ++ delta |}
    /\ only_request (GMLAN_RD length) t delta
    /\ count is_sent delta = (Z.to_nat (Z.abs retry) + 1)%nat.
Proof.
  intros Hin. unfold RequestDownload. rewrite normalize_retry_abs.
  destruct (RequestDownload_loop_attempts length t
              (S (Z.to_nat (Z.abs retry))) (Z.abs retry) w)
    as (b & inb' & delta & Hrun & Honly & _ & Hfail); try lia.
  destruct (RequestDownload_loop_answers _ _ _ _ _ _ _ Hrun)
    as (consumed & Hinb & Hgood).
  destruct b.
  - destruct Hgood as (pre & r0 & -> & Hs); [discriminate|].
    rewrite Hinb, <- app_assoc in Hin. apply Forall_elt in Hin.
    now elim Hin.
  - exists inb', delta. auto.
Qed.

(** X16.  When the ECU never answers with service code 0x74 and
    [TransferPayload] returns, it returns [False], after exactly
    [|retry| + 1] requests that declare [len(payload)] bytes, and has done
    nothing else: [TransferData] is not entered, so no chunk is sent and the
    address is not even checked.  (The call does not return against an ECU
    that answers "response pending" for ever.) *)
Theorem refused_download_ends_the_payload_transfer
    (scheme : Z) (w : World) (addr : Z) (payload : list byte)
    (maxmsglen t : option Z) (retry : Z) (b : bool) (w' : World) :
  TransferPayload scheme w addr payload maxmsglen t retry = Done b w' ->
  Forall (not_answering 0x74) (inbox w) ->
  b = false
  /\ exists delta,
      trace w' = trace w ++ delta
      /\ only_request (GMLAN_RD (len payload)) t delta
      /\ count is_sent delta = (Z.to_nat (Z.abs retry) + 1)%nat.
Proof.
  intros Hret Hin. unfold TransferPayload in Hret.
  destruct (RequestDownload_unanswered w (len payload) t retry Hin)
    as (inb' & delta & Hrun & Honly & Hc).
  rewrite Hrun in Hret. injection Hret as <- <-.
  split; [reflexivity|]. now exists delta.
Qed.

(** X17.  [TransferPayload] looks at the address only after RequestDownload
    has gone through: with an address outside [0, 256^scheme) and an ECU
    that accepts the download request, the request declaring [len(payload)]
    bytes has been sent and answered when the call raises the warning and
    returns [False]. *)
Theorem payload_transfer_checks_the_address_after_the_download_request
    (scheme : Z) (w : World) (addr : Z) (payload : list byte)
    (maxmsglen t : option Z) (retry : Z) (r : Response)
    (rest : list (option Response)) :
  0 <= scheme ->
  addr < 0 \/ 256 ^ scheme <= addr ->
  inbox w = Some r :: rest ->
  service r = 0x74 ->
  TransferPayload scheme w addr payload maxmsglen t retry
  = Done false
      {| inbox := rest;
         trace := trace w ++ [Sr1 (GMLAN_RD (len payload)) t;
                              Warning (InvalidAddress addr scheme)] |}.
Proof.
  intros Hs Ha Hin Hr. unfold TransferPayload.
  rewrite (RequestDownload_accepted w (len payload) t retry r rest Hin Hr).
  unfold TransferData. rewrite invalid_address_true by auto.
  unfold warning, log. simpl. rewrite <- app_assoc. reflexivity.
Qed.

(** X18.  With a valid address, against an ECU that accepts the download
    request and then each chunk, [TransferPayload] returns [True] having sent
    one RequestDownload declaring [len(payload)] bytes followed by one
    data-transfer request per chunk, in order, chunk [payload[i:i + m]] at
    [addr + i]. *)
Theorem payload_transfer_declares_the_size_then_sends_the_chunks
    (scheme addr : Z) (payload : list byte) (maxmsglen t : option Z)
    (retry : Z) (offsets : list Z) (r0 : Response) (rs : list Response)
    (rest : list (option Response)) (tr : list Event) :
  0 <= scheme < 4093 ->
  0 <= addr < 256 ^ scheme ->
  let m := effective_maxmsglen scheme maxmsglen in
  py_range 0 (len payload) m = Some offsets ->
  service r0 = 0x74 ->
  length rs = length offsets ->
  Forall (fun r => service r = 0x76) rs ->
  TransferPayload scheme
    {| inbox := Some r0 :: map Some rs ++ rest; trace := tr |}
    addr payload maxmsglen t retry
  = Done true
      {| inbox := rest;
         trace := tr ++ Sr1 (GMLAN_RD (len payload)) t
                     :: map (fun i =>
                               Sr1 (GMLAN_TD (addr + i)
                                      (py_slice payload i (Some (i + m)))) t)
                          offsets |}.
Proof.
  intros Hs Ha m Hrange Hr0 Hlen Hrs. unfold TransferPayload.
  rewrite (RequestDownload_accepted
             {| inbox := Some r0 :: map Some rs ++ rest; trace := tr |}
             (len payload) t retry r0 (map Some rs ++ rest) eq_refl Hr0).
  unfold TransferData. rewrite invalid_address_false by (auto; lia).
  fold m. rewrite Hrange.
  rewrite TransferData_for_accepted by assumption.
  pose proof (effective_maxmsglen_pos scheme maxmsglen (proj2 Hs)) as Hm.
  fold m in Hm.
  destruct (py_range_offsets _ _ _ Hrange (len_nonneg payload)) as (_ & Hin).
  simpl trace. rewrite <- app_assoc. simpl. do 4 f_equal.
  apply map_ext_in. intros i Hi.
  rewrite transdata_at_slice; [reflexivity| |lia]. now apply Hin.
Qed.

(** * The further properties on concrete runs *)

Lemma handshake_succeeds_on_three_positive_answers_witness :
  InitDiagnostics
    (fresh [Some (positive 0x68); Some (positive 0xe2); Some (positive 0xe5)])
    None None 0
  = Done true
      {| inbox := [];
         trace := [Sr1 (GMLAN_raw 0x28) None; Sleep 50;
                   Sr1 (GMLAN_raw 0xa2) None; Sr1 (GMLAN_PM 0x1) None;
                   Sleep 50; Send (GMLAN_PM 0x3); Sleep 50] |}.
Proof.
  exact (proj1 (handshake_succeeds_on_three_positive_answers
                  (fresh [Some (positive 0x68); Some (positive 0xe2);
                          Some (positive 0xe5)])
                  None 0 (positive 0x68) (positive 0xe2) (positive 0xe5) []
                  eq_refl eq_refl eq_refl eq_refl)).
Defined.

Lemma broadcast_handshake_reads_no_answer_to_disable_witness :
  InitDiagnostics (fresh [Some (positive 0xe2); Some (positive 0xe5)])
    (Some GMLAN_BroadcastSocket) None 0
  = Done true
      {| inbox := [];
         trace := [Broadcast (GMLAN_raw 0x28); Sleep 50;
                   Sr1 (GMLAN_raw 0xa2) None; Sr1 (GMLAN_PM 0x1) None;
                   Sleep 50; Send (GMLAN_PM 0x3); Sleep 50] |}.
Proof.
  exact (broadcast_handshake_reads_no_answer_to_disable
           (fresh [Some (positive 0xe2); Some (positive 0xe5)])
           GMLAN_BroadcastSocket None 0 (positive 0xe2) (positive 0xe5) []
           eq_refl eq_refl eq_refl).
Defined.

(** ReportProgrammedState times out with one retry left. *)
Lemma failed_step_restarts_the_handshake_witness :
  not_answering 0xe2 None
  /\ handshake_retried
       (fresh [Some (positive 0x68); None; Some (positive 0x68)])
       {| inbox := [Some (positive 0x68)];
          trace := [Sr1 (GMLAN_raw 0x28) None; Sleep 50;
                    Sr1 (GMLAN_raw 0xa2) None] |}
       None None 1.
Proof.
  split; [exact I|].
  exact (proj1 (proj2 (failed_step_restarts_the_handshake
                         (fresh [Some (positive 0x68); None;
                                 Some (positive 0x68)])
                         None 1 None [Some (positive 0x68)]))
           (positive 0x68) eq_refl eq_refl I).
Defined.

Lemma unanswered_disable_stops_the_handshake_witness :
  Forall (not_answering 0x68) [None; Some (negative 0x28 0x11); None]
  /\ InitDiagnostics (fresh [None; Some (negative 0x28 0x11); None])
       None None 1
     = Done false
         {| inbox := [None];
            trace := [Sr1 (GMLAN_raw 0x28) None;
                      Sr1 (GMLAN_raw 0x28) None] |}.
Proof.
  assert (H : Forall (not_answering 0x68)
                [None; Some (negative 0x28 0x11); None]).
  { repeat apply Forall_cons; try apply Forall_nil; simpl; try exact I.
    discriminate. }
  split; [exact H|].
  exact (unanswered_disable_stops_the_handshake
           (fresh [None; Some (negative 0x28 0x11); None]) None 1 H).
Defined.

Lemma failed_seed_request_is_retried_without_key_witness :
  Z.odd 1 = true /\ not_answering 0x67 (Some (negative 0x27 0x22))
  /\ key_step_retried
       (fresh [Some (negative 0x27 0x22); Some (seed_response 0)])
       {| inbox := [Some (seed_response 0)];
          trace := [Sr1 (GMLAN_SA 1 None) None] |}
       (fun seed => seed + 1) 1 None 1.
Proof.
  assert (H : not_answering 0x67 (Some (negative 0x27 0x22)))
    by (simpl; discriminate).
  split; [reflexivity|]. split; [exact H|].
  exact (failed_seed_request_is_retried_without_key
           (fresh [Some (negative 0x27 0x22); Some (seed_response 0)])
           (fun seed => seed + 1) 1 None 1 (Some (negative 0x27 0x22))
           [Some (seed_response 0)] eq_refl eq_refl H).
Defined.

Lemma unanswered_seed_requests_never_send_a_key_witness :
  Z.odd 3 = true
  /\ Forall (not_answering 0x67) [None; Some (negative 0x27 0x22)]
  /\ GetSecurityAccess (fresh [None; Some (negative 0x27 0x22)])
       (fun seed => seed + 1) 3 None 2
     = Done false
         {| inbox := [];
            trace := [Sr1 (GMLAN_SA 3 None) None; Sr1 (GMLAN_SA 3 None) None;
                      Sr1 (GMLAN_SA 3 None) None] |}.
Proof.
  assert (H : Forall (not_answering 0x67) [None; Some (negative 0x27 0x22)]).
  { repeat apply Forall_cons; try apply Forall_nil; simpl; try exact I.
    discriminate. }
  split; [reflexivity|]. split; [exact H|].
  exact (unanswered_seed_requests_never_send_a_key
           (fresh [None; Some (negative 0x27 0x22)])
           (fun seed => seed + 1) 3 None 2 eq_refl H).
Defined.

Lemma security_access_sends_only_seed_requests_and_derived_keys_witness :
  Z.odd 1 = true
  /\ exists b inb' delta,
      GetSecurityAccess
        (fresh [Some (seed_response 0x1234); Some (negative 0x27 0x35);
                Some (seed_response 0x4321); Some (positive 0x67)])
        (fun seed => seed + 1) 1 None 1
      = Done b {| inbox := inb'; trace := [] ++ delta |}
      /\ Forall (security_access_event (fun seed => seed + 1) 1 None
                   [Some (seed_response 0x1234); Some (negative 0x27 0x35);
                    Some (seed_response 0x4321); Some (positive 0x67)])
           delta.
Proof.
  split; [reflexivity|].
  exact (security_access_sends_only_seed_requests_and_derived_keys
           (fresh [Some (seed_response 0x1234); Some (negative 0x27 0x35);
                   Some (seed_response 0x4321); Some (positive 0x67)])
           (fun seed => seed + 1) 1 None 1 eq_refl).
Defined.

(** Two timeouts with one retry: [False] after two requests. *)
Lemma request_download_succeeds_only_on_positive_answer_witness :
  let w' := {| inbox := [Some (positive 0x74)];
               trace := [Sr1 (GMLAN_RD 16) None; Sr1 (GMLAN_RD 16) None] |} in
  RequestDownload (fresh [None; None; Some (positive 0x74)]) 16 None 1
  = Done false w'
  /\ exists consumed delta,
      [None; None; Some (positive 0x74)] = consumed ++ inbox w'
      /\ trace w' = [] ++ delta
      /\ count is_sent delta = 2%nat.
Proof.
  intros w'.
  assert (H : RequestDownload (fresh [None; None; Some (positive 0x74)])
                16 None 1 = Done false w') by reflexivity.
  split; [exact H|].
  destruct (request_download_succeeds_only_on_positive_answer
              (fresh [None; None; Some (positive 0x74)]) 16 None 1 false w' H)
    as (consumed & delta & Hinb & Htr & _ & _ & _ & Hfalse & _).
  exists consumed, delta. split; [exact Hinb|]. split; [exact Htr|].
  exact (Hfalse eq_refl).
Defined.

Lemma read_returns_the_data_record_of_the_positive_answer_witness :
  let r := {| service := 0x63; returnCode := 0; requestServiceId := 0;
              securitySeed := 0;
              dataRecord := Some ["001"%byte; "002"%byte] |} in
  ReadMemoryByAddress 2 (fresh [None; Some r; None]) 16 2 None 1
  = Done (Some ["001"%byte; "002"%byte])
      {| inbox := [None];
         trace := [Sr1 (GMLAN_RMBA 16 2) None; Sr1 (GMLAN_RMBA 16 2) None] |}
  /\ exists pre r0,
      [None; Some r; None] = pre ++ Some r0 :: [None]
      /\ service r0 = 0x63
      /\ dataRecord r0 = Some ["001"%byte; "002"%byte].
Proof.
  intros r.
  assert (H : ReadMemoryByAddress 2 (fresh [None; Some r; None]) 16 2 None 1
              = Done (Some ["001"%byte; "002"%byte])
                  {| inbox := [None];
                     trace := [Sr1 (GMLAN_RMBA 16 2) None;
                               Sr1 (GMLAN_RMBA 16 2) None] |})
    by reflexivity.
  split; [exact H|].
  exact (read_returns_the_data_record_of_the_positive_answer
           2 (fresh [None; Some r; None]) 16 2 None 1 _ _ H).
Defined.

(** A length of zero is refused. *)
Lemma read_sends_unless_arguments_are_refused_witness :
  0 <= 2
  /\ exists res inb' delta,
      ReadMemoryByAddress 2 (fresh [Some (positive 0x63)]) 16 0 None 1
      = Done res {| inbox := inb'; trace := [] ++ delta |}
      /\ messages_sent delta = 0%nat
      /\ res = None.
Proof.
  assert (Hs : 0 <= 2) by lia.
  split; [exact Hs|].
  destruct (read_sends_unless_arguments_are_refused
              2 (fresh [Some (positive 0x63)]) 16 0 None 1 Hs)
    as (res & inb' & delta & Hrun & Hiff & Hnone).
  assert (H0 : messages_sent delta = 0%nat)
    by (apply Hiff; right; right; left; lia).
  exists res, inb', delta. split; [exact Hrun|]. split; [exact H0|].
  exact (proj1 (Hnone H0)).
Defined.

Lemma transfer_data_refuses_only_a_bad_start_address_witness :
  (0 <= 2 < 4093) /\ (65536 < 0 \/ 256 ^ 2 <= 65536)
  /\ exists b inb' delta,
      TransferData 2 (fresh [Some (positive 0x76)]) 65536 ["001"%byte]
        None None 3
      = Done b {| inbox := inb'; trace := [] ++ delta |}
      /\ b = false /\ inb' = [Some (positive 0x76)]
      /\ delta = [Warning (InvalidAddress 65536 2)].
Proof.
  assert (Hs : 0 <= 2 < 4093) by lia.
  assert (Ha : 65536 < 0 \/ 256 ^ 2 <= 65536) by (right; simpl; lia).
  split; [exact Hs|]. split; [exact Ha|].
  destruct (transfer_data_refuses_only_a_bad_start_address
              2 (fresh [Some (positive 0x76)]) 65536 ["001"%byte]
              None None 3 Hs)
    as (b & inb' & delta & Hrun & _ & Hbad).
  exists b, inb', delta. split; [exact Hrun|]. exact (Hbad Ha).
Defined.

(** Ten bytes in chunks of four: 4, 4 and 2 bytes, at offsets 0, 4, 8. *)
Lemma chunks_are_full_except_the_last_witness :
  (0 <= 2 < 4093) /\ (0 <= 16 < 256 ^ 2)
  /\ effective_maxmsglen 2 (Some 4) = 4
  /\ exists b inb' delta,
      TransferData 2
        (fresh [Some (positive 0x76); Some (positive 0x76);
                Some (positive 0x76)])
        16 (repeat "000"%byte 10) (Some 4) None 0
      = Done b {| inbox := inb'; trace := [] ++ delta |}
      /\ Forall (fun c => exists k : nat,
                   let i := Z.of_nat k * effective_maxmsglen 2 (Some 4) in
                   0 <= i < len (repeat "000"%byte 10)
                   /\ c = (16 + i,
                           py_slice (repeat "000"%byte 10) i
                             (Some (i + effective_maxmsglen 2 (Some 4))))
                   /\ len (snd c)
                      = Z.min (effective_maxmsglen 2 (Some 4))
                          (len (repeat "000"%byte 10) - i)
                   /\ 1 <= len (snd c)
                   /\ (i + effective_maxmsglen 2 (Some 4)
                       <= len (repeat "000"%byte 10) ->
                       len (snd c) = effective_maxmsglen 2 (Some 4))
                   /\ (len (snd c) < effective_maxmsglen 2 (Some 4) ->
                       len (repeat "000"%byte 10)
                       < i + effective_maxmsglen 2 (Some 4)))
           (chunks_sent delta).
Proof.
  assert (Hs : 0 <= 2 < 4093) by lia.
  assert (Ha : 0 <= 16 < 256 ^ 2) by (simpl; lia).
  split; [exact Hs|]. split; [exact Ha|].
  destruct (chunks_are_full_except_the_last 2
              (fresh [Some (positive 0x76); Some (positive 0x76);
                      Some (positive 0x76)])
              16 (repeat "000"%byte 10) (Some 4) None 0 Hs Ha)
    as (Hm & Hrun).
  split; [apply (Hm 4 eq_refl); lia|exact Hrun].
Defined.

(** The second of three chunks times out with no retry. *)
Lemma exhausted_chunk_aborts_the_upload_witness :
  let w' := {| inbox := [];
               trace := [Sr1 (GMLAN_TD 0 (repeat "000"%byte 4)) None;
                         Sr1 (GMLAN_TD 4 (repeat "000"%byte 4)) None] |} in
  (0 <= 1 < 4093) /\ (0 <= 0 < 256 ^ 1)
  /\ TransferData 1 (fresh [Some (positive 0x76); None]) 0
       (repeat "000"%byte 10) (Some 4) None 0
     = Done false w'
  /\ exists pre i post delta,
      py_range 0 (len (repeat "000"%byte 10)) (effective_maxmsglen 1 (Some 4))
      = Some (pre ++ i :: post)
      /\ trace w' = [] ++ delta
      /\ count (is_chunk_at (0 + i)) delta = 1%nat
      /\ (forall j, In j pre ->
            (1 <= count (is_chunk_at (0 + j)) delta)%nat)
      /\ (forall j, In j post -> count (is_chunk_at (0 + j)) delta = 0%nat).
Proof.
  intros w'.
  assert (Hs : 0 <= 1 < 4093) by lia.
  assert (Ha : 0 <= 0 < 256 ^ 1) by (simpl; lia).
  assert (Hrun : TransferData 1 (fresh [Some (positive 0x76); None]) 0
                   (repeat "000"%byte 10) (Some 4) None 0
                 = Done false w') by reflexivity.
  split; [exact Hs|]. split; [exact Ha|]. split; [exact Hrun|].
  exact (exhausted_chunk_aborts_the_upload 1
           (fresh [Some (positive 0x76); None]) 0 (repeat "000"%byte 10)
           (Some 4) None 0 w' Hs Ha Hrun).
Defined.

(** Two chunks, each timing out once, with a budget of one retry. *)
Lemma each_chunk_has_its_own_retry_budget_witness :
  (0 <= 1 < 4093) /\ (0 <= 0 < 256 ^ 1)
  /\ (1 <= Z.to_nat (Z.abs 1))%nat
  /\ py_range 0 (len (repeat "000"%byte 6)) (effective_maxmsglen 1 (Some 4))
     = Some [0; 4]
  /\ TransferData 1
       (fresh [None; Some (positive 0x76); None; Some (positive 0x76)])
       0 (repeat "000"%byte 6) (Some 4) None 1
     = Done true
         {| inbox := [];
            trace := [Sr1 (GMLAN_TD 0 (repeat "000"%byte 4)) None;
                      Sr1 (GMLAN_TD 0 (repeat "000"%byte 4)) None;
                      Sr1 (GMLAN_TD 4 (repeat "000"%byte 2)) None;
                      Sr1 (GMLAN_TD 4 (repeat "000"%byte 2)) None] |}.
Proof.
  assert (Hs : 0 <= 1 < 4093) by lia.
  assert (Ha : 0 <= 0 < 256 ^ 1) by (simpl; lia).
  assert (Hk : (1 <= Z.to_nat (Z.abs 1))%nat) by (simpl; lia).
  assert (Hrange : py_range 0 (len (repeat "000"%byte 6))
                     (effective_maxmsglen 1 (Some 4)) = Some [0; 4])
    by reflexivity.
  assert (Hrs : Forall (fun r => service r = 0x76)
                  [positive 0x76; positive 0x76]) by (repeat constructor).
  split; [exact Hs|]. split; [exact Ha|]. split; [exact Hk|].
  split; [exact Hrange|].
  exact (each_chunk_has_its_own_retry_budget 1 0 (repeat "000"%byte 6)
           (Some 4) None 1 1 [0; 4] [positive 0x76; positive 0x76] [] []
           Hs Ha Hk Hrange eq_refl Hrs).
Defined.

Lemma refused_download_ends_the_payload_transfer_witness :
  let w' := {| inbox := [];
               trace := [Sr1 (GMLAN_RD 2) None; Sr1 (GMLAN_RD 2) None] |} in
  TransferPayload 2 (fresh [Some (negative 0x34 0x22); None]) 65536
    ["001"%byte; "002"%byte] None None 1
  = Done false w'
  /\ Forall (not_answering 0x74) [Some (negative 0x34 0x22); None]
  /\ exists delta,
      trace w' = [] ++ delta
      /\ only_request (GMLAN_RD 2) None delta
      /\ count is_sent delta = 2%nat.
Proof.
  intros w'.
  assert (Hrun : TransferPayload 2 (fresh [Some (negative 0x34 0x22); None])
                   65536 ["001"%byte; "002"%byte] None None 1
                 = Done false w') by reflexivity.
  assert (H : Forall (not_answering 0x74) [Some (negative 0x34 0x22); None]).
  { repeat apply Forall_cons; try apply Forall_nil; simpl; try exact I.
    discriminate. }
  split; [exact Hrun|]. split; [exact H|].
  exact (proj2 (refused_download_ends_the_payload_transfer 2
                  (fresh [Some (negative 0x34 0x22); None]) 65536
                  ["001"%byte; "002"%byte] None None 1 false w' Hrun H)).
Defined.

Lemma payload_transfer_checks_the_address_after_the_download_request_witness :
  (0 <= 2) /\ (65536 < 0 \/ 256 ^ 2 <= 65536)
  /\ TransferPayload 2 (fresh [Some (positive 0x74); Some (positive 0x76)])
       65536 ["001"%byte; "002"%byte] None None 0
     = Done false
         {| inbox := [Some (positive 0x76)];
            trace := [Sr1 (GMLAN_RD 2) None;
                      Warning (InvalidAddress 65536 2)] |}.
Proof.
  assert (Hs : 0 <= 2) by lia.
  assert (Ha : 65536 < 0 \/ 256 ^ 2 <= 65536) by (right; simpl; lia).
  split; [exact Hs|]. split; [exact Ha|].
  exact (payload_transfer_checks_the_address_after_the_download_request 2
           (fresh [Some (positive 0x74); Some (positive 0x76)]) 65536
           ["001"%byte; "002"%byte] None None 0 (positive 0x74)
           [Some (positive 0x76)] Hs Ha eq_refl eq_refl).
Defined.

Lemma payload_transfer_declares_the_size_then_sends_the_chunks_witness :
  (0 <= 1 < 4093) /\ (0 <= 16 < 256 ^ 1)
  /\ py_range 0 (len (repeat "000"%byte 6)) (effective_maxmsglen 1 (Some 4))
     = Some [0; 4]
  /\ TransferPayload 1
       (fresh [Some (positive 0x74); Some (positive 0x76);
               Some (positive 0x76)])
       16 (repeat "000"%byte 6) (Some 4) None 0
     = Done true
         {| inbox := [];
            trace := [Sr1 (GMLAN_RD 6) None;
                      Sr1 (GMLAN_TD 16 (repeat "000"%byte 4)) None;
                      Sr1 (GMLAN_TD 20 (repeat "000"%byte 2)) None] |}.
Proof.
  assert (Hs : 0 <= 1 < 4093) by lia.
  assert (Ha : 0 <= 16 < 256 ^ 1) by (simpl; lia).
  assert (Hrange : py_range 0 (len (repeat "000"%byte 6))
                     (effective_maxmsglen 1 (Some 4)) = Some [0; 4])
    by reflexivity.
  assert (Hrs : Forall (fun r => service r = 0x76)
                  [positive 0x76; positive 0x76]) by (repeat constructor).
  split; [exact Hs|]. split; [exact Ha|]. split; [exact Hrange|].
  exact (payload_transfer_declares_the_size_then_sends_the_chunks 1 16
           (repeat "000"%byte 6) (Some 4) None 0 [0; 4] (positive 0x74)
           [positive 0x76; positive 0x76] [] [] Hs Ha Hrange eq_refl eq_refl
           Hrs).
Defined.
